(** * DoH endpoints: address ordering, lazy transport selection, DoH3 probing

    A shallow embedding of package [endpoint]
    (the [DOHEndpoint] methods with [endpointAddrs], and
    [resolver/endpoint/doh3_support.go]), followed by the properties of
    the address orderer, the capability prober, the transport resolver
    and the exchanger.

    Go strings are byte sequences: they are modelled by [string]
    (a list of 8-bit [ascii]).  Slices are lists.  Everything that comes
    from outside the package (the two transport constructors, the QUIC
    dialer, the round trip of a transport, the response body, the URL
    parser) is a field of the class [Runtime]; the network is an abstract
    [World] threaded through the calls, and every call that reaches the
    outside is also recorded in a trace.  A call that does not return
    (it waits for ever, or it panics on a nil pointer) has the result
    [None]. *)

From Stdlib Require Import ZArith NArith Ascii Lia.
From stdpp Require Import base list strings pretty relations.

Open Scope string_scope.
Open Scope list_scope.

(** ** Package [strings] and [net]: the functions the source calls *)

Module GoStrings.

(** [strings.Contains(s, substr)]: [substr] occurs in [s]. *)
Fixpoint Contains (s substr : string) : bool :=
  String.prefix substr s ||
  match s with
  | EmptyString => false
  | String _ s' => Contains s' substr
  end.

(** [strings.Join(elems, sep)]. *)
Fixpoint Join (elems : list string) (sep : string) : string :=
  match elems with
  | [] => ""
  | [x] => x
  | x :: rest => x +:+ sep +:+ Join rest sep
  end.

Definition byteval (c : ascii) : N := N_of_ascii c.

(** [strings.EqualFold(s, t)].  The loop below is the ASCII path of the
    library function, byte by byte.  At the first position where one of
    the two bytes is not ASCII the library decodes runes and folds them
    with the Unicode tables; that remainder is [hasUnicode], applied to
    the two suffixes as in the library. *)
Fixpoint EqualFold (hasUnicode : string -> string -> bool) (s t : string) : bool :=
  match s, t with
  | String sr s', String tr t' =>
      if (128 <=? N.lor (byteval sr) (byteval tr))%N then hasUnicode s t
      else if (byteval tr =? byteval sr)%N then EqualFold hasUnicode s' t'
      else
        let lo := N.min (byteval sr) (byteval tr) in
        let hi := N.max (byteval sr) (byteval tr) in
        if (65 <=? lo)%N && (lo <=? 90)%N && (hi =? lo + 97 - 65)%N
        then EqualFold hasUnicode s' t'
        else false
  | EmptyString, EmptyString => true
  | _, _ => false
  end.

(** Comparing ASCII strings without regard to case: [s] and [t] are made
    of bytes below 128 and have the same bytes once the letters [A]-[Z]
    are replaced by [a]-[z]. *)
Definition lowerByte (c : ascii) : N :=
  if (65 <=? byteval c)%N && (byteval c <=? 90)%N then (byteval c + 32)%N
  else byteval c.

Fixpoint lowerBytes (s : string) : list N :=
  match s with
  | EmptyString => []
  | String c s' => lowerByte c :: lowerBytes s'
  end.

Fixpoint isASCII (s : string) : bool :=
  match s with
  | EmptyString => true
  | String c s' => (byteval c <? 128)%N && isASCII s'
  end.

(** [net.JoinHostPort(host, port)]: a host with a colon is taken to be
    an IPv6 literal and is bracketed. *)
Definition JoinHostPort (host port : string) : string :=
  if Contains host ":" then "[" +:+ host +:+ "]:" +:+ port
  else host +:+ ":" +:+ port.

(** [strings.IndexByte] and [strings.LastIndexByte]; [None] is [-1]. *)
Fixpoint IndexByte (s : string) (c : ascii) : option nat :=
  match s with
  | EmptyString => None
  | String a s' => if Ascii.eqb a c then Some 0 else S <$> IndexByte s' c
  end.

Fixpoint LastIndexByte (s : string) (c : ascii) : option nat :=
  match s with
  | EmptyString => None
  | String a s' =>
      match LastIndexByte s' c with
      | Some i => Some (S i)
      | None => if Ascii.eqb a c then Some 0 else None
      end
  end.

(** [s[:n]] and [s[n:]]. *)
Definition sliceTo (n : nat) (s : string) : string := String.substring 0 n s.
Definition sliceFrom (n : nat) (s : string) : string :=
  String.substring n (String.length s - n) s.

(** [net.SplitHostPort(hostport)]: the host and the port, or [None]
    where the library returns an error.  An address carries an explicit
    port when this succeeds. *)
Definition SplitHostPort (hostport : string) : option (string * string) :=
  match LastIndexByte hostport ":" with
  | None => None                                  (* missing port *)
  | Some i =>
      let checked (host : string) (j k : nat) :=
        if bool_decide (is_Some (IndexByte (sliceFrom j hostport) "[")) then None
        else if bool_decide (is_Some (IndexByte (sliceFrom k hostport) "]")) then None
        else Some (host, sliceFrom (i + 1) hostport) in
      if String.prefix "[" hostport then
        match IndexByte hostport "]" with
        | None => None                            (* missing ']' *)
        | Some end_ =>
            if (end_ + 1 =? String.length hostport)%nat then None
            else if (end_ + 1 =? i)%nat
                 then checked (String.substring 1 (end_ - 1) hostport) 1 (end_ + 1)
                 else None
        end
      else
        let host := sliceTo i hostport in
        if bool_decide (is_Some (IndexByte host ":")) then None   (* too many colons *)
        else checked host 0 0
  end.

End GoStrings.
Import GoStrings.

(** ** Errors *)

Record Certificate := { Subject : string; Issuer : string }.

(** The error values the package sees.  [wrapError] is any error with an
    [Unwrap] method; [errorString] is what [errors.New] and [fmt.Errorf]
    (without [%w]) return. *)
Inductive error : Type :=
| EOF
| DeadlineExceeded
| UnknownAuthorityError (Cert : Certificate)
| errorString (s : string)
| wrapError (s : string) (inner : error).

Module errors.

(** [err.Error()]. *)
Definition Error (err : error) : string :=
  match err with
  | EOF => "EOF"
  | DeadlineExceeded => "context deadline exceeded"
  | UnknownAuthorityError _ => "x509: certificate signed by unknown authority"
  | errorString s => s
  | wrapError s _ => s
  end.

(** [errors.As(err, &uaeErr)] with [uaeErr] an [x509.UnknownAuthorityError]. *)
Fixpoint As_UnknownAuthorityError (err : error) : option Certificate :=
  match err with
  | UnknownAuthorityError c => Some c
  | wrapError _ inner => As_UnknownAuthorityError inner
  | _ => None
  end.

(** [errors.Is(err, io.EOF)]. *)
Fixpoint Is_EOF (err : error) : bool :=
  match err with
  | EOF => true
  | wrapError _ inner => Is_EOF inner
  | _ => false
  end.

End errors.

(** ** Data model *)

(** [sync.Once]: the [done] flag and the mutex [m] ([true] when held). *)
Record Once := { done : bool; m : bool }.

Definition zeroOnce : Once := {| done := false; m := false |}.

(** The [Once] while the function runs, and after it has run. *)
Definition heldOnce : Once := {| done := false; m := true |}.
Definition doneOnce : Once := {| done := true; m := false |}.

(** [DOHEndpoint], over the type [T] of transport handles.  A [nil]
    transport is [None].  The [onConnect] callback is never read or
    written by the functions embedded here and is left out. *)
Record DOHEndpoint (T : Type) := mkDOHEndpoint {
  Hostname : string;
  Path : string;
  Bootstrap : list string;
  ALPN : list string;
  DoH3Supported : bool;
  FastestIP : string;
  once : Once;
  transport : option T
}.
Arguments mkDOHEndpoint {T}.
Arguments Hostname {T}.
Arguments Path {T}.
Arguments Bootstrap {T}.
Arguments ALPN {T}.
Arguments DoH3Supported {T}.
Arguments FastestIP {T}.
Arguments once {T}.
Arguments transport {T}.

Section FieldUpdates.
Context {T : Type}.

Definition set_Hostname (h : string) (e : DOHEndpoint T) : DOHEndpoint T :=
  mkDOHEndpoint h (Path e) (Bootstrap e) (ALPN e) (DoH3Supported e)
                (FastestIP e) (once e) (transport e).

Definition set_transport (t : option T) (e : DOHEndpoint T) : DOHEndpoint T :=
  mkDOHEndpoint (Hostname e) (Path e) (Bootstrap e) (ALPN e) (DoH3Supported e)
                (FastestIP e) (once e) t.

Definition set_once (o : Once) (e : DOHEndpoint T) : DOHEndpoint T :=
  mkDOHEndpoint (Hostname e) (Path e) (Bootstrap e) (ALPN e) (DoH3Supported e)
                (FastestIP e) o (transport e).

Definition set_Bootstrap (b : list string) (e : DOHEndpoint T) : DOHEndpoint T :=
  mkDOHEndpoint (Hostname e) (Path e) b (ALPN e) (DoH3Supported e)
                (FastestIP e) (once e) (transport e).

(** [&DOHEndpoint{Hostname: h}]: every other field has its zero value. *)
Definition hostOnly (h : string) : DOHEndpoint T :=
  mkDOHEndpoint h "" [] [] false "" zeroOnce None.
End FieldUpdates.

(** ** The address orderer *)

Section AddressOrderer.
Context {T : Type}.

(** [endpointAddrs].  Both loops append to a slice that starts empty. *)
Definition endpointAddrs (e : DOHEndpoint T) : list string :=
  let addrs :=
    foldl (fun addrs ip =>
             let ip := if negb (Contains ip ":") then JoinHostPort ip "443" else ip in
             addrs ++ [ip])
          [] (Bootstrap e) in
  if negb (String.eqb (FastestIP e) "") then
    let fastest := FastestIP e in
    let fastest :=
      if negb (Contains fastest ":") then JoinHostPort fastest "443" else fastest in
    let filtered :=
      foldl (fun filtered a =>
               if negb (String.eqb a fastest) then filtered ++ [a] else filtered)
            [] addrs in
    [fastest] ++ filtered
  else addrs.

End AddressOrderer.

(** What both loops of [endpointAddrs] do to one address. *)
Definition withPort (ip : string) : string :=
  if negb (Contains ip ":") then JoinHostPort ip "443" else ip.

(** An address without colon and without bracket: an IPv4 literal or a
    host name, with no port. *)
Definition plainHost (ip : string) : bool :=
  negb (Contains ip ":") && negb (Contains ip "[") && negb (Contains ip "]").

(** ** Requests, responses and the outside world *)

(** [tls.Config], the two fields the prober sets. *)
Record tlsConfig := { ServerName : string; NextProtos : list string }.

(** [http.Request] as the package builds it.  [Header] is a
    [map[string][]string], kept as the list of its entries, one per key. *)
Record Request (C : Type) := mkRequest {
  Method : string;
  URL : string;
  Header : list (string * list string);
  ReqBody : option (list Byte.byte);
  reqCtx : C
}.
Arguments mkRequest {C}.
Arguments Method {C}.
Arguments URL {C}.
Arguments Header {C}.
Arguments ReqBody {C}.
Arguments reqCtx {C}.

(** [http.Response], the two fields the package reads. *)
Record Response (B : Type) := mkResponse { StatusCode : Z; Body : B }.
Arguments mkResponse {B}.
Arguments StatusCode {B}.
Arguments Body {B}.

(** The pair [(resp, err)] returned by [RoundTripper.RoundTrip].  The
    interface requires a response when the error is nil, so that a nil
    response with a nil error has no constructor. *)
Inductive RoundTripResult (B : Type) : Type :=
| RTResponse (resp : Response B)
| RTError (err : error) (resp : option (Response B)).
Arguments RTResponse {B}.
Arguments RTError {B}.

(** What the package takes from its collaborators. *)
Class Runtime := {
  Ctx : Type;                 (* context.Context *)
  Transport : Type;           (* a non-nil http.RoundTripper *)
  ReadCloser : Type;          (* a response body *)
  OtherEndpoint : Type;       (* the Endpoint implementations other than *DOHEndpoint *)
  World : Type;               (* the state of the network *)
  context_Background : Ctx;
  context_WithTimeout : Ctx -> Z -> Ctx;
  newTransportH2 : DOHEndpoint Transport -> list string -> Transport;
  newTransportH3 : DOHEndpoint Transport -> list string -> Transport;
  quic_DialAddrEarly : Ctx -> string -> tlsConfig -> World -> option error * World;
  transport_RoundTrip :
    Transport -> Request Ctx -> World -> RoundTripResult ReadCloser * World;
  body_Read : ReadCloser -> nat -> World -> (list Byte.byte * option error) * World;
  EqualFold_hasUnicode : string -> string -> bool;
  url_Parse : string -> bool  (* net/url: true when [url.Parse] returns no error *)
}.

(** The interface [Endpoint], by implementation. *)
Inductive Endpoint `{Runtime} : Type :=
| EpDOH (e : DOHEndpoint Transport)
| EpOther (o : OtherEndpoint).

(** Calls that leave the package, in the order they happen. *)
Inductive Event `{Runtime} : Type :=
| EvLog (line : string)
| EvDial (addr : string) (conf : tlsConfig)
| EvNewTransportH2 (e : DOHEndpoint Transport) (addrs : list string)
| EvNewTransportH3 (e : DOHEndpoint Transport) (addrs : list string)
| EvRoundTrip (t : Transport) (req : Request Ctx)
| EvRead (b : ReadCloser)
| EvClose (b : ReadCloser).

Record Sys `{Runtime} := mkSys { world : World; trace : list Event }.
Arguments mkSys {_}.

(** A network operation is a dial, a round trip or a read. *)
Definition isNetwork `{Runtime} (ev : Event) : bool :=
  match ev with
  | EvDial _ _ | EvRoundTrip _ _ | EvRead _ => true
  | _ => false
  end.

(** ** The state monad of the embedding *)

Module SysMonad.
Section Defs.
Context `{Runtime}.

Definition M (A : Type) : Type := Sys -> A * Sys.

Definition ret {A} (a : A) : M A := fun s => (a, s).

Definition bind {A B} (c : M A) (k : A -> M B) : M B :=
  fun s => let (a, s') := c s in k a s'.

Definition emit (ev : Event) : M unit :=
  fun s => (tt, mkSys (world s) (trace s ++ [ev])).

(** Run an outside call on the world. *)
Definition call {A} (f : World -> A * World) : M A :=
  fun s => let (a, w) := f (world s) in (a, mkSys w (trace s)).
End Defs.

Notation "'let*' x ':=' c 'in' k" := (bind c (fun x => k))
  (at level 10, x name, c at level 100, k at level 200).
Notation "'run' c 'in' k" := (bind c (fun _ => k))
  (at level 10, c at level 100, k at level 200).
End SysMonad.
Import SysMonad.

Section Outside.
Context `{Runtime}.

Definition log_Printf (line : string) : M unit := emit (EvLog line).

Definition mkTransportH2 (e : DOHEndpoint Transport) (addrs : list string)
  : M Transport :=
  run emit (EvNewTransportH2 e addrs) in ret (newTransportH2 e addrs).

Definition mkTransportH3 (e : DOHEndpoint Transport) (addrs : list string)
  : M Transport :=
  run emit (EvNewTransportH3 e addrs) in ret (newTransportH3 e addrs).

Definition DialAddrEarly (ctx : Ctx) (addr : string) (conf : tlsConfig)
  : M (option error) :=
  run emit (EvDial addr conf) in call (quic_DialAddrEarly ctx addr conf).

Definition roundTrip (t : Transport) (req : Request Ctx)
  : M (RoundTripResult ReadCloser) :=
  run emit (EvRoundTrip t req) in call (transport_RoundTrip t req).

Definition Body_Read (b : ReadCloser) (len : nat)
  : M (list Byte.byte * option error) :=
  run emit (EvRead b) in call (body_Read b len).

(** [Body.Close()]: its result is never looked at. *)
Definition Body_Close (b : ReadCloser) : M unit := emit (EvClose b).

(** [httpguts.IsTokenRune] on a byte, and [validMethod] of [net/http]:
    a method is a non-empty sequence of token characters. *)
Definition isTokenByte (c : ascii) : bool :=
  let b := byteval c in
  ((48 <=? b)%N && (b <=? 57)%N) || ((65 <=? b)%N && (b <=? 90)%N)
  || ((97 <=? b)%N && (b <=? 122)%N)
  || existsb (Ascii.eqb c) (String.list_ascii_of_string "!#$%&'*+-.^_`|~").

Definition validMethod (method : string) : bool :=
  negb (String.length method =? 0)%nat
  && forallb isTokenByte (String.list_ascii_of_string method).

(** [http.NewRequestWithContext] and [http.NewRequest].  The library
    returns a nil request with an error when the method is not valid or
    when [url.Parse] rejects the URL; the context of the model is never
    nil.  [None] is the nil request: the source discards the error. *)
Definition NewRequestWithContext (ctx : Ctx) (method url : string)
           (body : option (list Byte.byte)) : option (Request Ctx) :=
  let method := if (String.length method =? 0)%nat then "GET" else method in
  if negb (validMethod method) then None
  else if negb (url_Parse url) then None
  else Some (mkRequest method url [] body ctx).

Definition NewRequest (method url : string) (body : option (list Byte.byte))
  : option (Request Ctx) :=
  NewRequestWithContext context_Background method url body.

(** [req.Header.Set(key, value)]: the entry of [key] is replaced. *)
Definition Header_Set (key value : string) (req : Request Ctx) : Request Ctx :=
  mkRequest (Method req) (URL req)
            (List.filter (fun kv => negb (String.eqb kv.1 key)) (Header req)
               ++ [(key, [value])])
            (ReqBody req) (reqCtx req).

Definition WithContext (ctx : Ctx) (req : Request Ctx) : Request Ctx :=
  mkRequest (Method req) (URL req) (Header req) (ReqBody req) ctx.
End Outside.

Arguments Header_Set : simpl never.
Arguments NewRequestWithContext : simpl never.
Arguments WithContext : simpl never.

(** ** The methods of [DOHEndpoint] *)

Section Methods.
Context `{Runtime}.

Abbreviation endpoint := (DOHEndpoint Transport).

Definition strings_EqualFold : string -> string -> bool :=
  EqualFold EqualFold_hasUnicode.

(** The loop of [Equal]: [for i := range e.Bootstrap].  The indexes are
    in range of both slices because the lengths were compared before. *)
Fixpoint Equal_loop (b b2 : list string) (idx : list nat) : bool :=
  match idx with
  | [] => true
  | i :: rest =>
      match b !! i, b2 !! i with
      | Some x, Some y => if negb (String.eqb x y) then false else Equal_loop b b2 rest
      | _, _ => false
      end
  end.

Definition Equal (e : endpoint) (e2 : Endpoint) : bool :=
  match e2 with
  | EpDOH e2 =>
      if negb (String.eqb (Hostname e) (Hostname e2))
         || negb (String.eqb (Path e) (Path e2))
         || negb (length (Bootstrap e) =? length (Bootstrap e2))%nat
      then false
      else Equal_loop (Bootstrap e) (Bootstrap e2) (seq 0 (length (Bootstrap e)))
  | EpOther _ => false
  end.

(** [String]; named [String_] because [String] is the constructor of
    strings. *)
Definition String_ (e : endpoint) : string :=
  if negb (length (Bootstrap e) =? 0)%nat
  then "https://" +:+ Hostname e +:+ Path e +:+ "#" +:+ Join (Bootstrap e) ","
  else "https://" +:+ Hostname e +:+ Path e.

(** The function literal passed to [e.once.Do] in [RoundTrip]. *)
Definition initTransport (e : endpoint) : M endpoint :=
  match transport e with
  | None =>
      let addrs := endpointAddrs e in
      if DoH3Supported e then
        let e := if strings_EqualFold (Hostname e) "dns.nextdns.io"
                 then set_Hostname "doh3.dns.nextdns.io" e else e in
        let* t := mkTransportH3 e addrs in
        ret (set_transport (Some t) e)
      else
        let* t := mkTransportH2 e addrs in
        ret (set_transport (Some t) e)
  | Some _ => ret e
  end.

(** [sync.Once.Do], run by one goroutine alone: when [done] is unset it
    takes the mutex, calls [f], sets [done] and releases the mutex.  The
    result is [None] when the mutex is held, since nobody will release
    it. *)
Definition Once_Do (f : endpoint -> M endpoint) (e : endpoint) : M (option endpoint) :=
  if done (once e) then ret (Some e)
  else if m (once e) then ret None
  else
    let* e := f (set_once {| done := false; m := true |} e) in
    ret (Some (set_once {| done := true; m := false |} e)).

(** [RoundTrip].  [None] stands for a call that does not return: it is
    blocked in [Once_Do], or [e.transport] is nil when it is called. *)
Definition RoundTrip (e : endpoint) (req : Request Ctx)
  : M (option (RoundTripResult ReadCloser) * endpoint) :=
  let* oe := Once_Do initTransport e in
  match oe with
  | None => ret (None, e)
  | Some e =>
      match transport e with
      | None => ret (None, e)
      | Some t => let* r := roundTrip t req in ret (Some r, e)
      end
  end.

(** The results of [Exchange]: [n], [err], and the caller's buffer as
    the call leaves it. *)
Record ExchangeResult := mkExchangeResult {
  ex_n : Z;
  ex_err : option error;
  ex_buf : list Byte.byte
}.

(** [Exchange].  [None] stands for a call that does not return: the
    request could not be built and [req.Header] is a nil dereference, or
    [RoundTrip] does not return. *)
Definition Exchange (e : endpoint) (ctx : Ctx) (payload buf : list Byte.byte)
  : M (option ExchangeResult * endpoint) :=
  match NewRequest "POST" ("https://nowhere" +:+ Path e) (Some payload) with
  | None => ret (None, e)              (* req is nil: [req.Header] panics *)
  | Some req =>
      let req := Header_Set "Content-Type" "application/dns-message" req in
      let req := WithContext ctx req in
      let* r := RoundTrip e req in
      match r with
      | (None, e) => ret (None, e)
      | (Some (RTError err _), e) =>
          match errors.As_UnknownAuthorityError err with
          | Some cert =>
              ret (Some (mkExchangeResult 0
                     (Some (errorString ("roundtrip: " +:+ errors.Error err
                                         +:+ " (subject=" +:+ Subject cert
                                         +:+ ", issuer=" +:+ Issuer cert +:+ ")")))
                     buf), e)
          | None =>
              ret (Some (mkExchangeResult 0
                     (Some (errorString ("roundtrip: " +:+ errors.Error err))) buf), e)
          end
      | (Some (RTResponse res), e) =>
          if negb (StatusCode res =? 200)%Z then
            run Body_Close (Body res) in
            ret (Some (mkExchangeResult 0
                   (Some (errorString ("status: " +:+ pretty (StatusCode res)))) buf), e)
          else
            let* rd := Body_Read (Body res) (length buf) in
            let data := take (length buf) (fst rd) in
            let n := Z.of_nat (length data) in
            let buf := data ++ drop (length data) buf in
            match snd rd with
            | Some err =>
                if negb (errors.Is_EOF err) then
                  run Body_Close (Body res) in
                  ret (Some (mkExchangeResult n
                         (Some (errorString ("read: " +:+ errors.Error err))) buf), e)
                else
                  run Body_Close (Body res) in
                  ret (Some (mkExchangeResult n None buf), e)
            | None =>
                run Body_Close (Body res) in
                ret (Some (mkExchangeResult n None buf), e)
            end
      end
  end.

End Methods.

(** ** The capability prober ([doh3_support.go]) *)

Section Prober.
Context `{Runtime}.

(** The loop of [probeDoH3], with [lastErr] as it stands on entry. *)
Fixpoint probeDoH3_loop (ctx : Ctx) (endpoint : string) (ips : list string)
         (lastErr : option error) : M (option error) :=
  match ips with
  | [] => ret lastErr
  | ip :: rest =>
      let addr := JoinHostPort ip "443" in
      run log_Printf ("[DoH3] Probing QUIC to " +:+ addr
                      +:+ " (SNI=" +:+ endpoint +:+ ")") in
      let tlsConf := {| ServerName := endpoint; NextProtos := ["h3"] |} in
      let* err := DialAddrEarly ctx addr tlsConf in
      match err with
      | None =>
          run log_Printf ("[DoH3] QUIC probe to " +:+ addr +:+ " succeeded") in
          ret None
      | Some err =>
          run log_Printf ("[DoH3] QUIC probe to " +:+ addr +:+ " failed: "
                          +:+ errors.Error err) in
          probeDoH3_loop ctx endpoint rest (Some err)
      end
  end.

Definition probeDoH3 (ctx : Ctx) (endpoint : string) (bootstrapIPs : list string)
  : M (option error) :=
  if (length bootstrapIPs =? 0)%nat then
    run log_Printf ("[DoH3] No bootstrap IPs for endpoint=" +:+ endpoint) in
    ret (Some DeadlineExceeded)
  else probeDoH3_loop ctx endpoint bootstrapIPs None.

(** The loop of [probeDoH3Request].  The result is [Some err] for a
    call that returns [err], and [None] for a call that does not return:
    the request could not be built, and [req.Header] is a nil
    dereference. *)
Fixpoint probeDoH3Request_loop (ctx : Ctx) (endpoint : string) (ips : list string)
  : M (option (option error)) :=
  match ips with
  | [] => ret (Some (Some DeadlineExceeded))
  | ip :: rest =>
      let url := "https://" +:+ endpoint +:+ "/dns-query" in
      let* tr := mkTransportH3 (hostOnly endpoint) [ip] in
      match NewRequestWithContext ctx "POST" url None with
      | None => ret None
      | Some req =>
          let req := Header_Set "Content-Type" "application/dns-message" req in
          let* r := roundTrip tr req in
          match r with
          | RTResponse resp =>
              if (StatusCode resp =? 200)%Z then
                run Body_Close (Body resp) in ret (Some None)
              else
                run Body_Close (Body resp) in
                probeDoH3Request_loop ctx endpoint rest
          | RTError _ (Some resp) =>
              run Body_Close (Body resp) in
              probeDoH3Request_loop ctx endpoint rest
          | RTError _ None => probeDoH3Request_loop ctx endpoint rest
          end
      end
  end.

Definition probeDoH3Request (ctx : Ctx) (endpoint : string)
           (bootstrapIPs : list string) : M (option (option error)) :=
  if (length bootstrapIPs =? 0)%nat then ret (Some (Some DeadlineExceeded))
  else probeDoH3Request_loop ctx endpoint bootstrapIPs.

(** [SupportsDoH3].  The deadline is two seconds, in nanoseconds; the
    deferred [cancel] has no effect on what is modelled.  The result is
    [Some b] for a call that returns [b], and [None] when
    [probeDoH3Request] does not return. *)
Definition SupportsDoH3 (endpoint : string) (bootstrapIPs alpnList : list string)
  : M (option bool) :=
  let ctx := context_WithTimeout context_Background (2 * 1000000000) in
  let* err := probeDoH3 ctx endpoint bootstrapIPs in
  match err with
  | None => ret (Some true)
  | Some _ =>
      run log_Printf ("[DoH3] QUIC probe failed for endpoint=" +:+ endpoint
                      +:+ ", trying real DoH3 request") in
      let* err := probeDoH3Request ctx endpoint bootstrapIPs in
      match err with
      | None => ret None
      | Some None => ret (Some true)
      | Some (Some _) => ret (Some false)
      end
  end.

End Prober.

(** ** [RoundTrip] called from several goroutines

    Each goroutine runs [RoundTrip] one shared-memory access at a time.
    [sync.Once.Do] is written out as the library has it: load [done]; if
    unset take the mutex, load [done] again, call the function, store
    [done], release the mutex. *)

Section Goroutines.
Context `{Runtime}.

Abbreviation endpoint := (DOHEndpoint Transport).

(** Where a goroutine stands in [RoundTrip]. *)
Inductive PC : Type :=
| AtDo                                (* e.once.Do: loads done *)
| AtLock                              (* doSlow: o.m.Lock() *)
| AtRecheck                           (* doSlow: loads done again *)
| AtNilCheck                          (* if e.transport == nil *)
| AtAddrs                             (* addrs := endpointAddrs(e); if e.DoH3Supported *)
| AtFold (addrs : list string)        (* the EqualFold test and the assignment *)
| AtNewH3 (addrs : list string)       (* newTransportH3(e, addrs) *)
| AtNewH2 (addrs : list string)       (* newTransportH2(e, addrs) *)
| AtStore (t : Transport)             (* e.transport = ... *)
| AtStoreDone                         (* deferred o.done.Store(1) *)
| AtUnlock                            (* deferred o.m.Unlock() *)
| AtLoad                              (* reads e.transport *)
| Called (t : Transport)              (* e.transport.RoundTrip(req) on handle t *)
| Panicked.                           (* e.transport was nil *)

(** One access of a goroutine at [pc] on the shared endpoint: the next
    position, the endpoint and the events, or [None] when the goroutine
    cannot move (it waits for the mutex, or has left the function). *)
Definition thread_step (pc : PC) (e : endpoint)
  : option (PC * endpoint * list Event) :=
  match pc with
  | AtDo => Some (if done (once e) then AtLoad else AtLock, e, [])
  | AtLock =>
      if m (once e) then None
      else Some (AtRecheck, set_once {| done := done (once e); m := true |} e, [])
  | AtRecheck => Some (if done (once e) then AtUnlock else AtNilCheck, e, [])
  | AtNilCheck =>
      Some (match transport e with None => AtAddrs | Some _ => AtStoreDone end, e, [])
  | AtAddrs =>
      let addrs := endpointAddrs e in
      Some (if DoH3Supported e then AtFold addrs else AtNewH2 addrs, e, [])
  | AtFold addrs =>
      Some (AtNewH3 addrs,
            if strings_EqualFold (Hostname e) "dns.nextdns.io"
            then set_Hostname "doh3.dns.nextdns.io" e else e,
            [])
  | AtNewH3 addrs => Some (AtStore (newTransportH3 e addrs), e, [EvNewTransportH3 e addrs])
  | AtNewH2 addrs => Some (AtStore (newTransportH2 e addrs), e, [EvNewTransportH2 e addrs])
  | AtStore t => Some (AtStoreDone, set_transport (Some t) e, [])
  | AtStoreDone =>
      Some (AtUnlock, set_once {| done := true; m := m (once e) |} e, [])
  | AtUnlock =>
      Some (AtLoad, set_once {| done := done (once e); m := false |} e, [])
  | AtLoad =>
      Some (match transport e with Some t => Called t | None => Panicked end, e, [])
  | Called _ => None
  | Panicked => None
  end.

(** The shared endpoint, the goroutines and the events so far. *)
Record Cfg := mkCfg { ep : endpoint; pool : list PC; events : list Event }.

Inductive step : Cfg -> Cfg -> Prop :=
| step_goroutine c i pc pc' e' evs :
    pool c !! i = Some pc ->
    thread_step pc (ep c) = Some (pc', e', evs) ->
    step c (mkCfg e' (<[i := pc']> (pool c)) (events c ++ evs)).

(** [n] goroutines enter [RoundTrip] on [e]. *)
Definition enter (e : endpoint) (n : nat) : Cfg :=
  mkCfg e (replicate n AtDo) [].

(** A schedule is the list of the goroutines that move, in order; a
    goroutine that cannot move when its turn comes is passed over. *)
Definition turn (c : Cfg) (i : nat) : Cfg :=
  match pool c !! i with
  | Some pc =>
      match thread_step pc (ep c) with
      | Some (pc', e', evs) => mkCfg e' (<[i := pc']> (pool c)) (events c ++ evs)
      | None => c
      end
  | None => c
  end.

Definition play (schedule : list nat) (c : Cfg) : Cfg := foldl turn c schedule.

(** The handle an event constructs. *)
Definition builtBy (ev : Event) : option Transport :=
  match ev with
  | EvNewTransportH2 e addrs => Some (newTransportH2 e addrs)
  | EvNewTransportH3 e addrs => Some (newTransportH3 e addrs)
  | _ => None
  end.

Definition constructed (evs : list Event) : list Transport := omap builtBy evs.

(** The positions at which a goroutine holds the mutex of the [Once]. *)
Definition holdsMutex (pc : PC) : bool :=
  match pc with
  | AtRecheck | AtNilCheck | AtAddrs | AtFold _ | AtNewH3 _ | AtNewH2 _
  | AtStore _ | AtStoreDone | AtUnlock => true
  | _ => false
  end.

(** The transport is settled: it is the handle the endpoint [e0] came
    with and nothing was constructed, or [e0] came without a handle and
    it is the one handle constructed. *)
Definition settled (e0 e : endpoint) (built : list Transport) : Prop :=
  match transport e0 with
  | Some t0 => built = [] /\ transport e = Some t0
  | None => exists t, built = [t] /\ transport e = Some t
  end.

(** What a goroutine at [pc] knows of the shared endpoint [e] and of the
    handles [built] so far, [e0] being the endpoint at the start. *)
Definition knows (e0 e : endpoint) (built : list Transport) (pc : PC) : Prop :=
  match pc with
  | AtDo | AtLock => True
  | AtRecheck =>
      m (once e) = true
      /\ (done (once e) = false -> built = [] /\ transport e = transport e0)
  | AtNilCheck =>
      m (once e) = true /\ done (once e) = false
      /\ built = [] /\ transport e = transport e0
  | AtAddrs | AtFold _ | AtNewH3 _ | AtNewH2 _ =>
      m (once e) = true /\ done (once e) = false
      /\ built = [] /\ transport e = None /\ transport e0 = None
  | AtStore t =>
      m (once e) = true /\ done (once e) = false
      /\ built = [t] /\ transport e = None /\ transport e0 = None
  | AtStoreDone =>
      m (once e) = true /\ done (once e) = false /\ settled e0 e built
  | AtUnlock => m (once e) = true /\ done (once e) = true
  | AtLoad => done (once e) = true
  | Called t => done (once e) = true /\ transport e = Some t
  | Panicked => False
  end.

(** The invariant of the runs that start from [e0]. *)
Record Inv (e0 : endpoint) (c : Cfg) : Prop := mkInv {
  inv_knows : forall i pc,
    pool c !! i = Some pc -> knows e0 (ep c) (constructed (events c)) pc;
  inv_mutex : forall i j pi pj,
    pool c !! i = Some pi -> pool c !! j = Some pj ->
    holdsMutex pi = true -> holdsMutex pj = true -> i = j;
  inv_done : done (once (ep c)) = true -> settled e0 (ep c) (constructed (events c));
  inv_idle : m (once (ep c)) = false -> done (once (ep c)) = false ->
             constructed (events c) = [] /\ transport (ep c) = transport e0;
  inv_once : length (constructed (events c)) <= 1;
  inv_held : m (once (ep c)) = true ->
             exists j pcj, pool c !! j = Some pcj /\ holdsMutex pcj = true
}.

(** The accesses a goroutine at [pc] has left, at most. *)
Definition remaining (pc : PC) : nat :=
  match pc with
  | AtDo => 11
  | AtLock => 10
  | AtRecheck => 9
  | AtNilCheck => 8
  | AtAddrs => 7
  | AtFold _ => 6
  | AtNewH3 _ | AtNewH2 _ => 5
  | AtStore _ => 4
  | AtStoreDone => 3
  | AtUnlock => 2
  | AtLoad => 1
  | Called _ | Panicked => 0
  end.

Definition fuel (c : Cfg) : nat := sum_list_with remaining (pool c).

(** Every goroutine has reached the round trip. *)
Definition allCalled (c : Cfg) : Prop :=
  forall i pc, pool c !! i = Some pc -> exists t, pc = Called t /\ transport (ep c) = Some t.

End Goroutines.

(** ** Reading a run *)

Section Observations.
Context `{Runtime}.

(** The addresses dialled, the round trips made and the bodies closed,
    in the order of the trace. *)
Definition dialed (evs : list Event) : list string :=
  omap (fun ev => match ev with EvDial a _ => Some a | _ => None end) evs.

Definition roundTrips (evs : list Event) : list (Transport * Request Ctx) :=
  omap (fun ev => match ev with EvRoundTrip t r => Some (t, r) | _ => None end) evs.

Definition closed (evs : list Event) : list ReadCloser :=
  omap (fun ev => match ev with EvClose b => Some b | _ => None end) evs.

(** The bodies read and the TLS configurations of the dials. *)
Definition reads (evs : list Event) : list ReadCloser :=
  omap (fun ev => match ev with EvRead b => Some b | _ => None end) evs.

Definition dialConfs (evs : list Event) : list tlsConfig :=
  omap (fun ev => match ev with EvDial _ conf => Some conf | _ => None end) evs.

(** The network answering a sequence of dials, one after the other. *)
Fixpoint dialEach (ctx : Ctx) (conf : tlsConfig) (addrs : list string) (w : World)
  : list (option error) * World :=
  match addrs with
  | [] => ([], w)
  | a :: rest =>
      let (r, w1) := quic_DialAddrEarly ctx a conf w in
      let (rs, w2) := dialEach ctx conf rest w1 in
      (r :: rs, w2)
  end.

(** The network answering a sequence of round trips. *)
Fixpoint roundTripEach (calls : list (Transport * Request Ctx)) (w : World)
  : list (RoundTripResult ReadCloser) * World :=
  match calls with
  | [] => ([], w)
  | (t, req) :: rest =>
      let (r, w1) := transport_RoundTrip t req w in
      let (rs, w2) := roundTripEach rest w1 in
      (r :: rs, w2)
  end.

(** The error [probeDoH3] holds after dials that answered [errs], when it
    held [lastErr] before them. *)
Definition lastOf (errs : list (option error)) (lastErr : option error)
  : option error :=
  default lastErr (last errs).

(** The response of a round trip, when there is one. *)
Definition responseOf (r : RoundTripResult ReadCloser) : option (Response ReadCloser) :=
  match r with
  | RTResponse resp => Some resp
  | RTError _ resp => resp
  end.

(** A round trip that came back without error and with status 200. *)
Definition is200 (r : RoundTripResult ReadCloser) : bool :=
  match r with
  | RTResponse resp => (StatusCode resp =? 200)%Z
  | RTError _ _ => false
  end.

(** The address, the TLS configuration and the context of the probes
    for one bootstrap entry. *)
Definition probeAddr (ip : string) : string := JoinHostPort ip "443".

Definition probeConf (endpoint : string) : tlsConfig :=
  {| ServerName := endpoint; NextProtos := ["h3"] |}.

Definition probeCtx : Ctx :=
  context_WithTimeout context_Background (2 * 1000000000).

(** The request [probeDoH3Request] sends, when it can be built, and the
    round trip it makes for one bootstrap entry. *)
Definition probeRequest (ctx : Ctx) (endpoint : string) : option (Request Ctx) :=
  Header_Set "Content-Type" "application/dns-message"
    <$> NewRequestWithContext ctx "POST" ("https://" +:+ endpoint +:+ "/dns-query") None.

Definition probeCall (endpoint : string) (req : Request Ctx) (ip : string)
  : Transport * Request Ctx :=
  (newTransportH3 (hostOnly endpoint) [ip], req).

(** One caller making several calls of [RoundTrip], one after the other. *)
Fixpoint RoundTrip_each (e : DOHEndpoint Transport) (reqs : list (Request Ctx))
  : M (list (option (RoundTripResult ReadCloser)) * DOHEndpoint Transport) :=
  match reqs with
  | [] => ret ([], e)
  | req :: rest =>
      let* r := RoundTrip e req in
      let* rs := RoundTrip_each (snd r) rest in
      ret (fst r :: fst rs, snd rs)
  end.

(** The request [Exchange] sends, when it can be built. *)
Definition exchangeRequest (e : DOHEndpoint Transport) (ctx : Ctx)
           (payload : list Byte.byte) : option (Request Ctx) :=
  (fun req => WithContext ctx
                (Header_Set "Content-Type" "application/dns-message" req))
    <$> NewRequest "POST" ("https://nowhere" +:+ Path e) (Some payload).

End Observations.

(** ** A small network to run the embedding on *)

Module Demo.

(** A transport handle remembers how it was built. *)
Record handle := { h3 : bool; host : string; addrs : list string }.

(** The network: the addresses that complete a QUIC handshake, the
    HTTP status served at each address, and a count of operations. *)
Record net := { quicUp : list string; status : list (string * Z); ops : nat }.

Definition tick (w : net) : net :=
  {| quicUp := quicUp w; status := status w; ops := S (ops w) |}.

Fixpoint statusAt (tbl : list (string * Z)) (a : string) : option Z :=
  match tbl with
  | [] => None
  | (k, v) :: rest => if String.eqb k a then Some v else statusAt rest a
  end.

Definition dial (addr : string) (conf : tlsConfig) (w : net) : option error * net :=
  if existsb (String.eqb addr) (quicUp w) && existsb (String.eqb "h3") (NextProtos conf)
  then (None, tick w)
  else (Some (errorString "timeout: no recent network activity"), tick w).

Definition serve (t : handle) (w : net) : RoundTripResult (list Byte.byte) * net :=
  match addrs t with
  | [] => (RTError (errorString "no address") None, tick w)
  | a :: _ =>
      match statusAt (status w) a with
      | Some code => (RTResponse (mkResponse code [Byte.x00; Byte.x01]), tick w)
      | None => (RTError (errorString "connection refused") None, tick w)
      end
  end.

(** The URL parser of the small network, for the URLs of the package,
    which start with [https://].  It refuses three things [url.Parse]
    refuses: a control byte, a space in the host, and a percent sign that
    is not followed by two hexadecimal digits.  It stands in for the
    library's parser on the examples and is not a model of it (the
    library leaves a query unchecked, for one). *)
Definition isHex (c : ascii) : bool :=
  let b := byteval c in
  ((48 <=? b)%N && (b <=? 57)%N) || ((65 <=? b)%N && (b <=? 70)%N)
  || ((97 <=? b)%N && (b <=? 102)%N).

Fixpoint escapes (s : string) (pending : nat) : bool :=
  match s with
  | EmptyString => (pending =? 0)%nat
  | String c rest =>
      if (0 <? pending)%nat then isHex c && escapes rest (pending - 1)
      else if Ascii.eqb c "%" then escapes rest 2
      else escapes rest 0
  end.

Definition hasCTL (s : string) : bool :=
  existsb (fun c => (byteval c <? 32)%N || (byteval c =? 127)%N) (String.list_ascii_of_string s).

Definition hostOfURL (u : string) : string :=
  let rest := sliceFrom 8 u in
  match IndexByte rest "/" with
  | Some i => sliceTo i rest
  | None => rest
  end.

Definition parses (u : string) : bool :=
  negb (hasCTL u) && negb (Contains (hostOfURL u) " ") && escapes u 0.

Definition runtime : Runtime :=
  {| Ctx := Z;
     Transport := handle;
     ReadCloser := list Byte.byte;
     OtherEndpoint := unit;
     World := net;
     context_Background := 0%Z;
     context_WithTimeout := fun _ d => d;
     newTransportH2 := fun e a => {| h3 := false; host := Hostname e; addrs := a |};
     newTransportH3 := fun e a => {| h3 := true; host := Hostname e; addrs := a |};
     quic_DialAddrEarly := fun _ addr conf w => dial addr conf w;
     transport_RoundTrip := fun t _ w => serve t w;
     body_Read := fun b _ w => ((b, Some EOF), tick w);
     EqualFold_hasUnicode := fun _ _ => false;
     url_Parse := parses |}.

Definition nextdns : DOHEndpoint handle :=
  mkDOHEndpoint "dns.nextdns.io" "/abcdef"
                ["45.90.28.0"; "2a07:a8c0::1"; "45.90.30.0"] ["h3"; "h2"]
                true "45.90.30.0" zeroOnce None.

(** An endpoint whose only bootstrap address is a bare IPv6 literal, and
    one that prefers such an address. *)
Definition bareIPv6 : DOHEndpoint handle :=
  mkDOHEndpoint "dns.nextdns.io" "" ["2a07:a8c0::1"] [] false "" zeroOnce None.

Definition preferIPv6 : DOHEndpoint handle :=
  mkDOHEndpoint "dns.nextdns.io" "" ["45.90.28.0"; "2a07:a8c0::1"] [] false
                "2a07:a8c0::1" zeroOnce None.

(** An endpoint that prefers, written with brackets and port, the IPv6
    address its bootstrap list holds bare. *)
Definition bracketedIPv6 : DOHEndpoint handle :=
  mkDOHEndpoint "dns.nextdns.io" "" ["2a07:a8c0::1"; "45.90.28.0"] [] false
                "[2a07:a8c0::1]:443" zeroOnce None.

Definition sys (w : net) (evs : list (@Event runtime)) : @Sys runtime :=
  @mkSys runtime w evs.

Definition start (w : net) : @Sys runtime := sys w [].

(** Three bootstrap addresses; a network where only the second completes
    the QUIC handshake; one where no handshake completes, the first
    address answers 404 and the second 200; and one where the preferred
    address of [nextdns] answers 404. *)
Definition ips3 : list string := ["1.1.1.1"; "2.2.2.2"; "3.3.3.3"].

Definition secondUp : net := {| quicUp := ["2.2.2.2:443"]; status := []; ops := 0 |}.

Definition secondServes : net :=
  {| quicUp := []; status := [("1.1.1.1", 404%Z); ("2.2.2.2", 200%Z)]; ops := 0 |}.

Definition notFound : net :=
  {| quicUp := []; status := [("45.90.30.0:443", 404%Z)]; ops := 0 |}.

Definition timedOut : option error :=
  Some (errorString "timeout: no recent network activity").

(** A network where the preferred address of [nextdns] answers 200, and
    an endpoint whose addresses are all plain IPv4 hosts. *)
Definition answers : net :=
  {| quicUp := []; status := [("45.90.30.0:443", 200%Z)]; ops := 0 |}.

Definition plain : DOHEndpoint handle :=
  mkDOHEndpoint "dns.nextdns.io" "/abcdef" ["45.90.28.0"; "45.90.30.0"] ["h2"]
                false "45.90.30.0" zeroOnce None.

(** An endpoint whose path has a broken percent escape, and a hostname
    with a space: no request can be built for either. *)
Definition brokenPath : DOHEndpoint handle :=
  mkDOHEndpoint "dns.nextdns.io" "/%zz" ["45.90.28.0"] ["h2"] false "" zeroOnce None.

Definition badHost : string := "bad host".

(** The request of the probes of [dns.nextdns.io], and the request
    [Exchange] builds on [nextdns] for the payload [07] and the context
    [5]. *)
Definition probe : Request Z :=
  mkRequest "POST" "https://dns.nextdns.io/dns-query"
            [("Content-Type", ["application/dns-message"])] None 2000000000%Z.

Definition posted : Request Z :=
  mkRequest "POST" "https://nowhere/abcdef"
            [("Content-Type", ["application/dns-message"])] (Some [Byte.x07]) 5%Z.

(** A request, and an interleaving of two goroutines: the second enters
    while the first holds the mutex. *)
Definition query : Request Z :=
  mkRequest "POST" "https://nowhere/abcdef" [] (Some [Byte.x00]) 0%Z.

Definition twoCallers : list nat :=
  [0; 1; 0; 0; 1; 0; 0; 0; 0; 0; 0; 1; 0; 0; 0; 1; 1; 1; 1; 1].

End Demo.

(** * Properties *)

(** ** The address orderer *)

Section AddressOrdererFacts.
Context {T : Type}.
Implicit Types (e : DOHEndpoint T) (ip a : string).

Lemma withPort_without_colon ip :
  Contains ip ":" = false -> withPort ip = ip +:+ ":443".
Proof. intros Hc. unfold withPort, JoinHostPort. now rewrite Hc. Qed.

Lemma withPort_with_colon ip : Contains ip ":" = true -> withPort ip = ip.
Proof. intros Hc. unfold withPort. now rewrite Hc. Qed.

(** The first loop is a map. *)
Lemma normalise_loop (l acc : list string) :
  foldl (fun addrs ip =>
           let ip := if negb (Contains ip ":") then JoinHostPort ip "443" else ip in
           addrs ++ [ip]) acc l
  = acc ++ (withPort <$> l).
Proof.
  revert acc. induction l as [|ip l IH]; intros acc; simpl.
  - now rewrite app_nil_r.
  - rewrite IH. now rewrite <- app_assoc.
Qed.

(** The second loop is a filter. *)
Lemma filter_loop (fastest : string) (l acc : list string) :
  foldl (fun filtered a =>
           if negb (String.eqb a fastest) then filtered ++ [a] else filtered) acc l
  = acc ++ filter (fun a => a <> fastest) l.
Proof.
  revert acc. induction l as [|a l IH]; intros acc; simpl.
  - now rewrite app_nil_r.
  - rewrite IH. destruct (String.eqb a fastest) eqn:E; simpl.
    + apply String.eqb_eq in E. subst a.
      rewrite filter_cons_False; [reflexivity | intros Hne; now apply Hne].
    + apply String.eqb_neq in E.
      rewrite filter_cons_True by assumption. now rewrite <- app_assoc.
Qed.

Lemma endpointAddrs_unfold e :
  endpointAddrs e =
    if String.eqb (FastestIP e) "" then withPort <$> Bootstrap e
    else withPort (FastestIP e)
           :: filter (fun a => a <> withPort (FastestIP e)) (withPort <$> Bootstrap e).
Proof.
  unfold endpointAddrs. rewrite normalise_loop. simpl.
  destruct (String.eqb (FastestIP e) ""); simpl; [reflexivity|].
  now rewrite filter_loop.
Qed.

Lemma endpointAddrs_without_preferred e :
  FastestIP e = "" -> endpointAddrs e = withPort <$> Bootstrap e.
Proof. intros Hf. rewrite endpointAddrs_unfold, Hf. reflexivity. Qed.

Lemma endpointAddrs_empty e :
  Bootstrap e = [] -> FastestIP e = "" -> endpointAddrs e = [].
Proof. intros Hb Hf. rewrite endpointAddrs_without_preferred, Hb by assumption. reflexivity. Qed.

(** X22.  Normalising an address as the code does (port 443 is added to
    a text without a colon, any other text is kept as written): with a
    non-empty preferred address the result is the normalised preferred
    address followed by the normalised bootstrap addresses, in their
    order, without those that are the same text; it is first, that text
    occurs once, and when no bootstrap address normalises to it the tail
    is the whole normalised bootstrap list. *)
Theorem endpointAddrs_preferred_first e :
  FastestIP e <> "" ->
  let p := withPort (FastestIP e) in
  let boot := withPort <$> Bootstrap e in
  exists rest,
    endpointAddrs e = p :: rest
    /\ rest = filter (fun a => a <> p) boot
    /\ (p ∉ rest)
    /\ sublist rest boot
    /\ (forall a, a ∈ boot -> a <> p -> a ∈ rest)
    /\ (p ∉ boot -> endpointAddrs e = p :: boot).
Proof.
  intros Hne p boot. exists (filter (fun a => a <> p) boot).
  assert (Heq : endpointAddrs e = p :: filter (fun a => a <> p) boot).
  { rewrite endpointAddrs_unfold.
    destruct (String.eqb (FastestIP e) "") eqn:E; [|reflexivity].
    apply String.eqb_eq in E. contradiction. }
  split; [exact Heq|]. split; [reflexivity|].
  split. { intros Hin. apply list_elem_of_filter in Hin. now destruct Hin as [Hp _]. }
  split. { apply sublist_filter. }
  split. { intros a Ha Hap. apply list_elem_of_filter. now split. }
  intros Hnot. rewrite Heq. f_equal.
  clear Heq. induction boot as [|a l IH]; [reflexivity|].
  rewrite not_elem_of_cons in Hnot. destruct Hnot as [Hpa Hl].
  rewrite filter_cons_True by congruence. now rewrite IH.
Qed.

End AddressOrdererFacts.

(** C5, at a bootstrap address that is a bare IPv6 literal.  The address
    has colons, so both loops leave it as it is: the element returned has
    no port ([net.SplitHostPort] rejects it), while the prober turns the
    same bootstrap entry into a bracketed address with port 443. *)
Theorem endpointAddrs_bare_IPv6_without_port :
  endpointAddrs Demo.bareIPv6 = ["2a07:a8c0::1"]
  /\ SplitHostPort "2a07:a8c0::1" = None
  /\ probeAddr "2a07:a8c0::1" = "[2a07:a8c0::1]:443"
  /\ SplitHostPort (probeAddr "2a07:a8c0::1") = Some ("2a07:a8c0::1", "443").
Proof. repeat split; vm_compute; reflexivity. Qed.

(** C4, at a preferred address that is an IPv6 literal.  Preferred bare,
    it comes first as it was written, without a port, where the prober
    dials the same entry with brackets and port 443.  Preferred with
    brackets and port while the bootstrap list holds it bare, it comes
    first and the bare entry stays behind it: the same host and port
    occur twice, the second time without a port. *)
Theorem endpointAddrs_preferred_IPv6 :
  endpointAddrs Demo.preferIPv6 = ["2a07:a8c0::1"; "45.90.28.0:443"]
  /\ SplitHostPort "2a07:a8c0::1" = None
  /\ probeAddr "2a07:a8c0::1" = "[2a07:a8c0::1]:443"
  /\ endpointAddrs Demo.bracketedIPv6
     = ["[2a07:a8c0::1]:443"; "2a07:a8c0::1"; "45.90.28.0:443"]
  /\ SplitHostPort "[2a07:a8c0::1]:443" = Some ("2a07:a8c0::1", "443").
Proof. repeat split; vm_compute; reflexivity. Qed.

(** What the two loops do guarantee: every element has a colon. *)
Lemma withPort_has_colon (ip : string) : Contains (withPort ip) ":" = true.
Proof.
  unfold withPort, JoinHostPort. destruct (Contains ip ":") eqn:E; simpl; [exact E|].
  induction ip as [|c ip IH]; [reflexivity|].
  simpl in E |- *. apply orb_false_iff in E. destruct E as [E1 E2].
  rewrite (IH E2). apply orb_true_r.
Qed.

Lemma endpointAddrs_all_have_colon {T} (e : DOHEndpoint T) (a : string) :
  a ∈ endpointAddrs e -> Contains a ":" = true.
Proof.
  rewrite endpointAddrs_unfold.
  destruct (String.eqb (FastestIP e) "").
  - intros Hin. apply list_elem_of_fmap in Hin. destruct Hin as (ip & -> & _).
    apply withPort_has_colon.
  - intros Hin. apply elem_of_cons in Hin. destruct Hin as [-> | Hin].
    + apply withPort_has_colon.
    + apply list_elem_of_filter in Hin. destruct Hin as [_ Hin].
      apply list_elem_of_fmap in Hin. destruct Hin as (ip & -> & _).
      apply withPort_has_colon.
Qed.

(** ** Running the monad *)

Section RunFacts.
Context `{Runtime}.

Lemma bind_run {A B} (c : M A) (k : A -> M B) (s : Sys) :
  bind c k s = k (c s).1 (c s).2.
Proof. unfold bind. now destruct (c s). Qed.

Lemma emit_run (ev : Event) (s : Sys) :
  emit ev s = (tt, mkSys (world s) (trace s ++ [ev])).
Proof. reflexivity. Qed.

Lemma DialAddrEarly_run ctx addr conf s r w :
  quic_DialAddrEarly ctx addr conf (world s) = (r, w) ->
  DialAddrEarly ctx addr conf s = (r, mkSys w (trace s ++ [EvDial addr conf])).
Proof.
  intros Hd. unfold DialAddrEarly, call. rewrite bind_run, emit_run. simpl.
  now rewrite Hd.
Qed.

Lemma roundTrip_run t req s r w :
  transport_RoundTrip t req (world s) = (r, w) ->
  roundTrip t req s = (r, mkSys w (trace s ++ [EvRoundTrip t req])).
Proof.
  intros Hd. unfold roundTrip, call. rewrite bind_run, emit_run. simpl.
  now rewrite Hd.
Qed.

Lemma mkTransportH3_run e addrs s :
  mkTransportH3 e addrs s
  = (newTransportH3 e addrs, mkSys (world s) (trace s ++ [EvNewTransportH3 e addrs])).
Proof. reflexivity. Qed.

Lemma mkTransportH2_run e addrs s :
  mkTransportH2 e addrs s
  = (newTransportH2 e addrs, mkSys (world s) (trace s ++ [EvNewTransportH2 e addrs])).
Proof. reflexivity. Qed.

Lemma dialed_app (l1 l2 : list Event) : dialed (l1 ++ l2) = dialed l1 ++ dialed l2.
Proof. apply omap_app. Qed.

Lemma roundTrips_app (l1 l2 : list Event) :
  roundTrips (l1 ++ l2) = roundTrips l1 ++ roundTrips l2.
Proof. apply omap_app. Qed.

Lemma closed_app (l1 l2 : list Event) : closed (l1 ++ l2) = closed l1 ++ closed l2.
Proof. apply omap_app. Qed.

Lemma constructed_app (l1 l2 : list Event) :
  constructed (l1 ++ l2) = constructed l1 ++ constructed l2.
Proof. apply omap_app. Qed.

End RunFacts.

(** ** The handshake probe *)

Section ProberFacts.
Context `{Runtime}.
Implicit Types (s : Sys) (ips pre post : list string) (errs : list (option error)).

(** One turn of the loop, on a dial that fails and on one that succeeds. *)
Lemma probeDoH3_loop_failure ctx endpoint ip rest lastErr s err w :
  quic_DialAddrEarly ctx (probeAddr ip) (probeConf endpoint) (world s) = (Some err, w) ->
  probeDoH3_loop ctx endpoint (ip :: rest) lastErr s
  = probeDoH3_loop ctx endpoint rest (Some err)
      (mkSys w (trace s ++
         [EvLog ("[DoH3] Probing QUIC to " +:+ probeAddr ip
                 +:+ " (SNI=" +:+ endpoint +:+ ")");
          EvDial (probeAddr ip) (probeConf endpoint);
          EvLog ("[DoH3] QUIC probe to " +:+ probeAddr ip +:+ " failed: "
                 +:+ errors.Error err)])).
Proof.
  intros Hd. unfold probeAddr, probeConf in *. simpl.
  unfold bind, log_Printf, DialAddrEarly, call, bind, emit. simpl.
  rewrite Hd. simpl. now rewrite <- !app_assoc.
Qed.

Lemma probeDoH3_loop_success ctx endpoint ip rest lastErr s w :
  quic_DialAddrEarly ctx (probeAddr ip) (probeConf endpoint) (world s) = (None, w) ->
  probeDoH3_loop ctx endpoint (ip :: rest) lastErr s
  = (None,
     mkSys w (trace s ++
       [EvLog ("[DoH3] Probing QUIC to " +:+ probeAddr ip
               +:+ " (SNI=" +:+ endpoint +:+ ")");
        EvDial (probeAddr ip) (probeConf endpoint);
        EvLog ("[DoH3] QUIC probe to " +:+ probeAddr ip +:+ " succeeded")])).
Proof.
  intros Hd. unfold probeAddr, probeConf in *. simpl.
  unfold bind, log_Printf, DialAddrEarly, call, bind, emit. simpl.
  rewrite Hd. simpl. now rewrite <- !app_assoc.
Qed.

Lemma lastOf_cons r errs lastErr : lastOf (r :: errs) lastErr = lastOf errs r.
Proof.
  unfold lastOf. destruct errs as [|r0 errs]; [reflexivity|].
  rewrite last_cons. destruct (last (r0 :: errs)); reflexivity.
Qed.

(** While the dials fail the loop goes on: it dials the addresses in
    order and keeps the last error. *)
Lemma probeDoH3_loop_failures ctx endpoint pre post lastErr s errs w1 :
  dialEach ctx (probeConf endpoint) (probeAddr <$> pre) (world s) = (errs, w1) ->
  Forall is_Some errs ->
  exists evs,
    probeDoH3_loop ctx endpoint (pre ++ post) lastErr s
    = probeDoH3_loop ctx endpoint post (lastOf errs lastErr) (mkSys w1 (trace s ++ evs))
    /\ dialed evs = probeAddr <$> pre
    /\ roundTrips evs = []
    /\ closed evs = []
    /\ constructed evs = [].
Proof.
  revert lastErr s errs. induction pre as [|ip pre IH]; intros lastErr s errs Hd Hf.
  - simpl in Hd. injection Hd as <- <-. exists []. simpl. rewrite app_nil_r.
    destruct s; auto.
  - simpl in Hd.
    destruct (quic_DialAddrEarly ctx (probeAddr ip) (probeConf endpoint) (world s))
      as [r w] eqn:E1.
    destruct (dialEach _ _ _ w) as [rs w2] eqn:E2.
    injection Hd as <- <-. inversion Hf as [|? ? [err ->] Hf']; subst.
    set (s1 := mkSys w (trace s ++
         [EvLog ("[DoH3] Probing QUIC to " +:+ probeAddr ip
                 +:+ " (SNI=" +:+ endpoint +:+ ")");
          EvDial (probeAddr ip) (probeConf endpoint);
          EvLog ("[DoH3] QUIC probe to " +:+ probeAddr ip +:+ " failed: "
                 +:+ errors.Error err)])).
    destruct (IH (Some err) s1 rs E2 Hf') as (evs & Hrun & Hdial & Hrt & Hcl & Hnew).
    eexists (_ ++ evs). split.
    { change ((ip :: pre) ++ post) with (ip :: (pre ++ post)).
      rewrite (probeDoH3_loop_failure _ _ _ _ _ _ _ _ E1). fold s1.
      rewrite Hrun, lastOf_cons. subst s1. simpl. now rewrite <- app_assoc. }
    rewrite dialed_app, roundTrips_app, closed_app, constructed_app.
    rewrite Hdial, Hrt, Hcl, Hnew. repeat split; reflexivity.
Qed.

(** C2.  When the dials of the addresses before [ip] fail, one after the
    other, and the dial of [ip] then succeeds, [probeDoH3] returns nil; it
    has dialled these addresses and [ip], in the order of the list, each
    once, and no address after [ip]. *)
Theorem probeDoH3_short_circuit ctx endpoint pre ip post s errs w1 w2 :
  dialEach ctx (probeConf endpoint) (probeAddr <$> pre) (world s) = (errs, w1) ->
  Forall is_Some errs ->
  quic_DialAddrEarly ctx (probeAddr ip) (probeConf endpoint) w1 = (None, w2) ->
  exists evs,
    probeDoH3 ctx endpoint (pre ++ ip :: post) s = (None, mkSys w2 (trace s ++ evs))
    /\ dialed evs = probeAddr <$> (pre ++ [ip])
    /\ length (dialed evs) = S (length pre)
    /\ roundTrips evs = [].
Proof.
  intros Hd Hf Hok.
  destruct (probeDoH3_loop_failures ctx endpoint pre (ip :: post) None s errs w1 Hd Hf)
    as (evs & Hrun & Hdial & Hrt & _ & _).
  eexists (evs ++ _). split.
  { unfold probeDoH3. rewrite length_app. simpl.
    replace (length pre + S (length post) =? 0)%nat with false
      by (symmetry; apply Nat.eqb_neq; lia).
    rewrite Hrun. rewrite (probeDoH3_loop_success _ _ _ _ _ _ w2) by exact Hok.
    simpl. now rewrite <- app_assoc. }
  rewrite dialed_app, roundTrips_app, Hdial, Hrt. simpl.
  split; [now rewrite fmap_app|]. split; [|reflexivity].
  rewrite length_app, length_fmap. simpl. lia.
Qed.

(** When every dial fails [probeDoH3] returns the last error. *)
Lemma probeDoH3_all_fail ctx endpoint ips s errs w1 :
  dialEach ctx (probeConf endpoint) (probeAddr <$> ips) (world s) = (errs, w1) ->
  Forall is_Some errs ->
  exists evs,
    probeDoH3 ctx endpoint ips s
    = (lastOf errs (Some DeadlineExceeded), mkSys w1 (trace s ++ evs))
    /\ is_Some (lastOf errs (Some DeadlineExceeded))
    /\ dialed evs = probeAddr <$> ips
    /\ roundTrips evs = []
    /\ closed evs = []
    /\ constructed evs = [].
Proof.
  intros Hd Hf.
  assert (Hsome : forall d, is_Some d -> is_Some (lastOf errs d)).
  { intros d Hdd. unfold lastOf. destruct (last errs) as [r|] eqn:El; [|exact Hdd].
    simpl. apply last_Some_elem_of in El.
    rewrite Forall_forall in Hf. now apply Hf. }
  destruct ips as [|ip ips].
  - simpl in Hd. injection Hd as <- <-. eexists. split; [reflexivity|].
    repeat split; try reflexivity. now exists DeadlineExceeded.
  - destruct (probeDoH3_loop_failures ctx endpoint (ip :: ips) [] None s errs w1 Hd Hf)
      as (evs & Hrun & Hdial & Hrt & Hcl & Hnew).
    exists evs. rewrite app_nil_r in Hrun. split.
    { unfold probeDoH3. change (length (ip :: ips) =? 0)%nat with false.
      cbv iota. rewrite Hrun. simpl. f_equal.
      simpl in Hd. destruct (quic_DialAddrEarly _ _ _ _) as [r w].
      destruct (dialEach _ _ _ w) as [rs w2]. injection Hd as <- <-.
      now rewrite !lastOf_cons. }
    split; [apply Hsome; now exists DeadlineExceeded|]. auto.
Qed.

(** ** The request probe *)

(** [POST] is a valid method, so that a request is built exactly when
    the URL parses. *)
Lemma NewRequestWithContext_POST ctx url body :
  NewRequestWithContext ctx "POST" url body
  = if url_Parse url then Some (mkRequest "POST" url [] body ctx) else None.
Proof. unfold NewRequestWithContext. cbn. now destruct (url_Parse url). Qed.

Lemma probeRequest_built ctx endpoint req :
  probeRequest ctx endpoint = Some req
  <-> url_Parse ("https://" +:+ endpoint +:+ "/dns-query") = true
      /\ req = mkRequest "POST" ("https://" +:+ endpoint +:+ "/dns-query")
                 [("Content-Type", ["application/dns-message"])] None ctx.
Proof.
  unfold probeRequest. rewrite NewRequestWithContext_POST.
  destruct (url_Parse _); cbn; split.
  - intros [= <-]. split; reflexivity.
  - intros [_ ->]. reflexivity.
  - discriminate.
  - intros [? _]. discriminate.
Qed.

Lemma probeRequest_unbuilt ctx endpoint :
  probeRequest ctx endpoint = None
  <-> url_Parse ("https://" +:+ endpoint +:+ "/dns-query") = false.
Proof.
  unfold probeRequest. rewrite NewRequestWithContext_POST.
  destruct (url_Parse _); cbn; split; congruence.
Qed.

(** One turn of the loop of [probeDoH3Request], when the request can be
    built. *)
Lemma probeDoH3Request_loop_turn ctx endpoint req ip rest s r w :
  probeRequest ctx endpoint = Some req ->
  transport_RoundTrip (probeCall endpoint req ip).1 (probeCall endpoint req ip).2
                      (world s) = (r, w) ->
  probeDoH3Request_loop ctx endpoint (ip :: rest) s
  = let s1 := mkSys w (trace s ++
                [EvNewTransportH3 (hostOnly endpoint) [ip];
                 EvRoundTrip (probeCall endpoint req ip).1 (probeCall endpoint req ip).2]
                ++ (EvClose <$> option_list (Body <$> responseOf r))) in
    if is200 r then (Some None, s1) else probeDoH3Request_loop ctx endpoint rest s1.
Proof.
  intros Hreq Hr. unfold probeCall in *. unfold probeRequest in Hreq. simpl in *.
  unfold bind at 1. unfold mkTransportH3, bind, emit, ret. cbn [fst snd world trace].
  destruct (NewRequestWithContext ctx "POST" _ None) as [req0|]; [|discriminate Hreq].
  injection Hreq as <-.
  unfold bind, roundTrip, Body_Close, call, bind, emit, ret. simpl.
  rewrite Hr. destruct r as [resp | err [resp|]]; simpl.
  - destruct (StatusCode resp =? 200)%Z; simpl; rewrite <- !app_assoc; reflexivity.
  - rewrite <- !app_assoc. reflexivity.
  - rewrite <- !app_assoc. reflexivity.
Qed.

(** While no round trip gives a 200 the loop goes on, one request per
    address, closing every response it got. *)
Lemma probeDoH3Request_loop_failures ctx endpoint req pre post s rs w1 :
  probeRequest ctx endpoint = Some req ->
  roundTripEach (probeCall endpoint req <$> pre) (world s) = (rs, w1) ->
  Forall (fun r => is200 r = false) rs ->
  exists evs,
    probeDoH3Request_loop ctx endpoint (pre ++ post) s
    = probeDoH3Request_loop ctx endpoint post (mkSys w1 (trace s ++ evs))
    /\ roundTrips evs = probeCall endpoint req <$> pre
    /\ closed evs = Body <$> omap responseOf rs
    /\ dialed evs = [].
Proof.
  intros Hreq. revert s rs. induction pre as [|ip pre IH]; intros s rs Hr Hf.
  - simpl in Hr. injection Hr as <- <-. exists []. simpl. rewrite app_nil_r.
    destruct s; auto.
  - simpl in Hr.
    destruct (transport_RoundTrip _ _ (world s)) as [r w] eqn:E1.
    destruct (roundTripEach _ w) as [rs' w2] eqn:E2.
    injection Hr as <- <-. inversion Hf as [|? ? Hr0 Hf']; subst.
    change ((ip :: pre) ++ post) with (ip :: (pre ++ post)).
    rewrite (probeDoH3Request_loop_turn _ _ req _ _ _ r w Hreq) by exact E1.
    cbv zeta. rewrite Hr0.
    match goal with |- context [probeDoH3Request_loop _ _ (pre ++ post) ?s1] =>
      destruct (IH s1 rs' E2 Hf') as (evs & Hrun & Hrt & Hcl & Hdial);
      rewrite Hrun end.
    exists (([EvNewTransportH3 (hostOnly endpoint) [ip];
              EvRoundTrip (probeCall endpoint req ip).1 (probeCall endpoint req ip).2]
             ++ (EvClose <$> option_list (Body <$> responseOf r))) ++ evs).
    split; [simpl; now rewrite <- !app_assoc|].
    rewrite roundTrips_app, closed_app, dialed_app, Hrt, Hcl, Hdial.
    destruct r as [resp | err [resp|]]; simpl; auto.
Qed.

Lemma probeDoH3Request_loop_nil ctx endpoint s :
  probeDoH3Request_loop ctx endpoint [] s = (Some (Some DeadlineExceeded), s).
Proof. reflexivity. Qed.

(** When the request cannot be built the first turn of the loop builds
    its transport and goes no further. *)
Lemma probeDoH3Request_loop_unbuilt ctx endpoint ip rest s :
  probeRequest ctx endpoint = None ->
  probeDoH3Request_loop ctx endpoint (ip :: rest) s
  = (None, mkSys (world s) (trace s ++ [EvNewTransportH3 (hostOnly endpoint) [ip]])).
Proof.
  intros Hreq. unfold probeRequest in Hreq. simpl.
  unfold bind at 1. unfold mkTransportH3, bind, emit, ret. cbn [fst snd world trace].
  destruct (NewRequestWithContext ctx "POST" _ None) as [req0|]; [discriminate Hreq|].
  reflexivity.
Qed.

Lemma probeDoH3Request_eq_loop ctx endpoint ips s :
  probeDoH3Request ctx endpoint ips s = probeDoH3Request_loop ctx endpoint ips s.
Proof. destruct ips; reflexivity. Qed.

(** ** [SupportsDoH3] *)

Lemma SupportsDoH3_success_A endpoint ips alpnList s sA :
  probeDoH3 probeCtx endpoint ips s = (None, sA) ->
  SupportsDoH3 endpoint ips alpnList s = (Some true, sA).
Proof.
  intros HA. unfold SupportsDoH3. rewrite bind_run.
  change (context_WithTimeout context_Background (2 * 1000000000)) with probeCtx.
  now rewrite HA.
Qed.

Lemma SupportsDoH3_after_A endpoint ips alpnList s err sA :
  probeDoH3 probeCtx endpoint ips s = (Some err, sA) ->
  SupportsDoH3 endpoint ips alpnList s
  = let rB := probeDoH3Request_loop probeCtx endpoint ips
                (mkSys (world sA)
                   (trace sA ++ [EvLog ("[DoH3] QUIC probe failed for endpoint="
                                        +:+ endpoint +:+ ", trying real DoH3 request")])) in
    (match rB.1 with
     | None => None
     | Some None => Some true
     | Some (Some _) => Some false
     end, rB.2).
Proof.
  intros HA. unfold SupportsDoH3. rewrite bind_run.
  change (context_WithTimeout context_Background (2 * 1000000000)) with probeCtx.
  rewrite HA. simpl. rewrite bind_run. unfold log_Printf. rewrite emit_run. simpl.
  rewrite bind_run, probeDoH3Request_eq_loop.
  destruct (probeDoH3Request_loop _ _ _ _) as [[[e|]|] sB]; reflexivity.
Qed.

(** X21.  When the request of the probe can be built and every dial of
    the handshake probe fails, [probeDoH3] returns the last error and the
    request probe runs.  It sends, address after address, the request
    through an HTTP/3 transport built for that address alone.  If the
    addresses before [ip] give no 200 and [ip] gives one, [SupportsDoH3]
    is true, the requests went to these addresses and [ip], and the last
    thing done was to close that response.  If no address gives a 200,
    [SupportsDoH3] is false after one request per address.  The request
    is a POST to [/dns-query] on the endpoint's hostname, without body,
    with the DNS-message content type. *)
Theorem SupportsDoH3_falls_back endpoint ips alpnList s errs w1 req :
  probeRequest probeCtx endpoint = Some req ->
  dialEach probeCtx (probeConf endpoint) (probeAddr <$> ips) (world s) = (errs, w1) ->
  Forall is_Some errs ->
  (exists evs,
      probeDoH3 probeCtx endpoint ips s
      = (lastOf errs (Some DeadlineExceeded), mkSys w1 (trace s ++ evs))
      /\ is_Some (lastOf errs (Some DeadlineExceeded))
      /\ dialed evs = probeAddr <$> ips
      /\ roundTrips evs = [])
  /\ (forall pre ip post rs w2 resp w3,
        ips = pre ++ ip :: post ->
        roundTripEach (probeCall endpoint req <$> pre) w1 = (rs, w2) ->
        Forall (fun r => is200 r = false) rs ->
        transport_RoundTrip (probeCall endpoint req ip).1
                            (probeCall endpoint req ip).2 w2
        = (RTResponse resp, w3) ->
        StatusCode resp = 200%Z ->
        exists evs,
          SupportsDoH3 endpoint ips alpnList s = (Some true, mkSys w3 (trace s ++ evs))
          /\ roundTrips evs = probeCall endpoint req <$> (pre ++ [ip])
          /\ closed evs = (Body <$> omap responseOf rs) ++ [Body resp]
          /\ last evs = Some (EvClose (Body resp)))
  /\ (forall rs w2,
        roundTripEach (probeCall endpoint req <$> ips) w1 = (rs, w2) ->
        Forall (fun r => is200 r = false) rs ->
        exists evs,
          SupportsDoH3 endpoint ips alpnList s = (Some false, mkSys w2 (trace s ++ evs))
          /\ roundTrips evs = probeCall endpoint req <$> ips
          /\ closed evs = Body <$> omap responseOf rs)
  /\ (forall ip,
        probeCall endpoint req ip
        = (newTransportH3 (hostOnly endpoint) [ip],
           mkRequest "POST" ("https://" +:+ endpoint +:+ "/dns-query")
                     [("Content-Type", ["application/dns-message"])] None probeCtx)).
Proof.
  intros Hreq Hd Hf.
  destruct (probeDoH3_all_fail probeCtx endpoint ips s errs w1 Hd Hf)
    as (evsA & HA & [err Herr] & HdialA & HrtA & HclA & _).
  rewrite Herr in HA |- *.
  split; [exists evsA; repeat split; eauto|].
  set (line := EvLog ("[DoH3] QUIC probe failed for endpoint=" +:+ endpoint
                      +:+ ", trying real DoH3 request")).
  split; [|split].
  - intros pre ip post rs w2 resp w3 -> Hrs Hnone Hresp Hcode.
    rewrite (SupportsDoH3_after_A _ _ _ _ _ _ HA). simpl. fold line.
    destruct (probeDoH3Request_loop_failures probeCtx endpoint req pre (ip :: post)
                (mkSys w1 ((trace s ++ evsA) ++ [line])) rs w2 Hreq Hrs Hnone)
      as (evsB & HB & HrtB & HclB & _).
    rewrite HB.
    rewrite (probeDoH3Request_loop_turn _ _ req _ _ _ (RTResponse resp) w3 Hreq)
      by exact Hresp.
    cbv zeta. unfold is200. rewrite Hcode. simpl.
    exists (evsA ++ [line] ++ evsB
            ++ [EvNewTransportH3 (hostOnly endpoint) [ip];
                EvRoundTrip (probeCall endpoint req ip).1
                            (probeCall endpoint req ip).2;
                EvClose (Body resp)]).
    split; [now rewrite <- !app_assoc|].
    rewrite !roundTrips_app, !closed_app, HrtA, HclA, HrtB, HclB. simpl.
    split; [rewrite fmap_app; reflexivity|].
    split; [reflexivity|].
    rewrite last_app, last_cons, last_app. reflexivity.
  - intros rs w2 Hrs Hnone.
    rewrite (SupportsDoH3_after_A _ _ _ _ _ _ HA). simpl. fold line.
    destruct (probeDoH3Request_loop_failures probeCtx endpoint req ips []
                (mkSys w1 ((trace s ++ evsA) ++ [line])) rs w2 Hreq Hrs Hnone)
      as (evsB & HB & HrtB & HclB & _).
    rewrite app_nil_r in HB. rewrite HB, probeDoH3Request_loop_nil. simpl.
    exists (evsA ++ [line] ++ evsB).
    split; [now rewrite <- !app_assoc|].
    rewrite !roundTrips_app, !closed_app, HrtA, HclA, HrtB, HclB. simpl. auto.
  - intros ip. apply probeRequest_built in Hreq. destruct Hreq as [_ ->]. reflexivity.
Qed.

(** C3, at an endpoint for which the request of the probe cannot be
    built ([url.Parse] rejects [https://<endpoint>/dns-query], as it does
    for a hostname with a space).  [http.NewRequestWithContext] returns a
    nil request, the source discards the error, and [req.Header] is a nil
    dereference: when every dial has failed, [SupportsDoH3] on a non-empty
    list builds the transport of the first address, sends nothing and
    does not return, where no address has given a 200 and the answer
    should be false. *)
Theorem SupportsDoH3_nil_request endpoint ip ips alpnList s errs w1 :
  probeRequest probeCtx endpoint = None ->
  dialEach probeCtx (probeConf endpoint) (probeAddr <$> ip :: ips) (world s) = (errs, w1) ->
  Forall is_Some errs ->
  exists evs,
    SupportsDoH3 endpoint (ip :: ips) alpnList s = (None, mkSys w1 (trace s ++ evs))
    /\ dialed evs = probeAddr <$> ip :: ips
    /\ constructed evs = [newTransportH3 (hostOnly endpoint) [ip]]
    /\ roundTrips evs = [] /\ closed evs = [].
Proof.
  intros Hreq Hd Hf.
  destruct (probeDoH3_all_fail probeCtx endpoint (ip :: ips) s errs w1 Hd Hf)
    as (evsA & HA & [err Herr] & HdialA & HrtA & HclA & HnewA).
  rewrite Herr in HA.
  rewrite (SupportsDoH3_after_A _ _ _ _ _ _ HA). cbv zeta. cbn [world trace].
  rewrite (probeDoH3Request_loop_unbuilt _ _ _ _ _ Hreq). cbn [fst snd world trace].
  eexists (evsA ++ [_; _]). split; [now rewrite <- !app_assoc|].
  rewrite dialed_app, constructed_app, roundTrips_app, closed_app.
  rewrite HdialA, HrtA, HclA, HnewA. cbn. now rewrite app_nil_r.
Qed.

(** C6.  With no bootstrap address both probes fail at once and
    [SupportsDoH3] is false: the network is as it was, and the only
    events are two log lines. *)
Theorem SupportsDoH3_without_bootstrap endpoint alpnList ctx s :
  probeDoH3 ctx endpoint [] s
  = (Some DeadlineExceeded,
     mkSys (world s)
           (trace s ++ [EvLog ("[DoH3] No bootstrap IPs for endpoint=" +:+ endpoint)]))
  /\ probeDoH3Request ctx endpoint [] s = (Some (Some DeadlineExceeded), s)
  /\ exists evs,
      SupportsDoH3 endpoint [] alpnList s = (Some false, mkSys (world s) (trace s ++ evs))
      /\ Forall (fun ev => isNetwork ev = false) evs
      /\ dialed evs = [] /\ roundTrips evs = [] /\ constructed evs = []
      /\ evs = [EvLog ("[DoH3] No bootstrap IPs for endpoint=" +:+ endpoint);
                EvLog ("[DoH3] QUIC probe failed for endpoint=" +:+ endpoint
                       +:+ ", trying real DoH3 request")].
Proof.
  split; [reflexivity|]. split; [reflexivity|].
  eexists. split.
  - unfold SupportsDoH3, probeDoH3, probeDoH3Request, bind, log_Printf, emit, ret.
    simpl. rewrite <- app_assoc. reflexivity.
  - split; [repeat constructor|]. repeat split; reflexivity.
Qed.

(** C10.  [alpnList] is not read: two calls that differ only in it give
    the same result, the same events and the same network. *)
Theorem SupportsDoH3_ignores_alpnList endpoint ips alpn1 alpn2 s :
  SupportsDoH3 endpoint ips alpn1 s = SupportsDoH3 endpoint ips alpn2 s.
Proof. reflexivity. Qed.

End ProberFacts.

(** ** [EqualFold] on ASCII strings *)

Lemma lor_below_128 (x y : N) : (x < 128 -> y < 128 -> N.lor x y < 128)%N.
Proof.
  intros Hx Hy.
  destruct (N.eq_dec x 0%N) as [->|Hx0]; [now rewrite N.lor_0_l|].
  destruct (N.eq_dec y 0%N) as [->|Hy0]; [now rewrite N.lor_0_r|].
  change 128%N with (2 ^ 7)%N in *.
  assert (0 < N.lor x y)%N.
  { destruct (N.eq_dec (N.lor x y) 0%N) as [Hz|Hz]; [|lia].
    apply N.lor_eq_0_iff in Hz. lia. }
  apply N.log2_lt_pow2; [assumption|].
  rewrite N.log2_lor.
  apply N.log2_lt_pow2 in Hx; [|lia]. apply N.log2_lt_pow2 in Hy; [|lia]. lia.
Qed.

(** On ASCII strings [EqualFold] never reaches the Unicode path, and it
    is equality up to the case of the letters. *)
Lemma EqualFold_ASCII (hasUnicode : string -> string -> bool) (s t : string) :
  isASCII s = true -> isASCII t = true ->
  EqualFold hasUnicode s t = true <-> lowerBytes s = lowerBytes t.
Proof.
  revert t. induction s as [|a s IH]; intros [|b t] Hs Ht; simpl in *;
    try (split; [discriminate | discriminate]); [tauto|].
  apply andb_true_iff in Hs. destruct Hs as [Ha Hs].
  apply andb_true_iff in Ht. destruct Ht as [Hb Ht].
  apply N.ltb_lt in Ha. apply N.ltb_lt in Hb.
  pose proof (lor_below_128 _ _ Ha Hb) as Hlor.
  destruct (N.leb_spec 128%N (N.lor (byteval a) (byteval b))) as [Hge|_]; [lia|].
  specialize (IH t Hs Ht). unfold lowerByte.
  assert (Hcons : forall (x y : N) l1 l2, x :: l1 = y :: l2 <-> x = y /\ l1 = l2).
  { intros x y l1 l2. split; [intros [= -> ->] | intros [-> ->]]; auto. }
  rewrite Hcons, <- IH. clear Hcons IH.
  destruct (EqualFold hasUnicode s t);
    destruct (N.eqb_spec (byteval b) (byteval a));
    destruct (N.leb_spec 65%N (N.min (byteval a) (byteval b)));
    destruct (N.leb_spec (N.min (byteval a) (byteval b)) 90%N);
    destruct (N.eqb_spec (N.max (byteval a) (byteval b))
                         (N.min (byteval a) (byteval b) + 97 - 65)%N);
    destruct (N.leb_spec 65%N (byteval a)); destruct (N.leb_spec (byteval a) 90%N);
    destruct (N.leb_spec 65%N (byteval b)); destruct (N.leb_spec (byteval b) 90%N);
    simpl; try lia;
    (split; [intros Hx; try discriminate; split; [lia | reflexivity]
            | intros [Hx Hy]; try discriminate; try reflexivity; lia]).
Qed.

(** Whatever the Unicode path does, case variants of the NextDNS
    hostname fold to it, and its HTTP/3 counterpart does not. *)
Lemma EqualFold_nextdns_variants (hasUnicode : string -> string -> bool) :
  EqualFold hasUnicode "dns.nextdns.io" "dns.nextdns.io" = true
  /\ EqualFold hasUnicode "DNS.NextDNS.io" "dns.nextdns.io" = true
  /\ EqualFold hasUnicode "DNS.NEXTDNS.IO" "dns.nextdns.io" = true
  /\ EqualFold hasUnicode "doh3.dns.nextdns.io" "dns.nextdns.io" = false
  /\ EqualFold hasUnicode "dns.nextdns.io." "dns.nextdns.io" = false.
Proof. repeat split; vm_compute; reflexivity. Qed.

(** ** The transport resolver, one caller *)

Section ResolverFacts.
Context `{Runtime}.
Implicit Types (e : DOHEndpoint Transport) (s : Sys) (req : Request Ctx).

(** [RoundTrip] on an endpoint whose [Once] has not run and whose
    transport is nil, when DoH3 is supported. *)
Lemma RoundTrip_first_H3 e req s :
  once e = zeroOnce -> transport e = None -> DoH3Supported e = true ->
  let h := if strings_EqualFold (Hostname e) "dns.nextdns.io"
           then "doh3.dns.nextdns.io" else Hostname e in
  let arg := set_Hostname h (set_once heldOnce e) in
  let t := newTransportH3 arg (endpointAddrs e) in
  RoundTrip e req s
  = ((Some (transport_RoundTrip t req (world s)).1,
      set_once doneOnce (set_transport (Some t) arg)),
     mkSys (transport_RoundTrip t req (world s)).2
           (trace s ++ [EvNewTransportH3 arg (endpointAddrs e); EvRoundTrip t req])).
Proof.
  intros Ho Ht Hd. unfold RoundTrip, Once_Do, initTransport.
  rewrite Ho. simpl. rewrite Ht, Hd.
  unfold bind, mkTransportH3, roundTrip, call, bind, emit, ret. simpl.
  destruct (strings_EqualFold (Hostname e) "dns.nextdns.io"); simpl;
    destruct (transport_RoundTrip _ _ _); simpl; rewrite <- app_assoc; reflexivity.
Qed.

(** The same when DoH3 is not supported. *)
Lemma RoundTrip_first_H2 e req s :
  once e = zeroOnce -> transport e = None -> DoH3Supported e = false ->
  let arg := set_once heldOnce e in
  let t := newTransportH2 arg (endpointAddrs e) in
  RoundTrip e req s
  = ((Some (transport_RoundTrip t req (world s)).1,
      set_once doneOnce (set_transport (Some t) arg)),
     mkSys (transport_RoundTrip t req (world s)).2
           (trace s ++ [EvNewTransportH2 arg (endpointAddrs e); EvRoundTrip t req])).
Proof.
  intros Ho Ht Hd. unfold RoundTrip, Once_Do, initTransport.
  rewrite Ho. simpl. rewrite Ht, Hd.
  unfold bind, mkTransportH2, roundTrip, call, bind, emit, ret. simpl.
  destruct (transport_RoundTrip _ _ _); simpl; rewrite <- app_assoc; reflexivity.
Qed.

(** Once [done] is set, [RoundTrip] leaves the endpoint as it is and
    constructs nothing. *)
Lemma RoundTrip_when_done e req s t :
  done (once e) = true -> transport e = Some t ->
  RoundTrip e req s
  = ((Some (transport_RoundTrip t req (world s)).1, e),
     mkSys (transport_RoundTrip t req (world s)).2 (trace s ++ [EvRoundTrip t req])).
Proof.
  intros Hd Ht. unfold RoundTrip, Once_Do, bind, ret. rewrite Hd, Ht.
  unfold roundTrip, call, bind, emit. simpl.
  destruct (transport_RoundTrip _ _ _); reflexivity.
Qed.

Lemma RoundTrip_each_when_done e reqs s t :
  done (once e) = true -> transport e = Some t ->
  (RoundTrip_each e reqs s).1.2 = e
  /\ exists evs,
      trace (RoundTrip_each e reqs s).2 = trace s ++ evs
      /\ constructed evs = []
      /\ roundTrips evs = (fun req => (t, req)) <$> reqs.
Proof.
  intros Hd Ht. revert s. induction reqs as [|req reqs IH]; intros s.
  - split; [reflexivity|]. exists []. simpl. now rewrite app_nil_r.
  - simpl. rewrite bind_run, (RoundTrip_when_done e req s t Hd Ht). simpl.
    rewrite bind_run. simpl.
    match goal with |- context [RoundTrip_each e reqs ?s1] =>
      destruct (IH s1) as (He & evs & Htr & Hc & Hr) end.
    split; [exact He|]. exists (EvRoundTrip t req :: evs).
    rewrite Htr. simpl. rewrite <- app_assoc. simpl. rewrite Hc, Hr. auto.
Qed.

(** X20.  One caller, several calls: the first constructs the handle, and
    every call makes its round trip on that handle. *)
Lemma RoundTrip_each_constructs_once e req reqs s :
  once e = zeroOnce -> transport e = None ->
  exists t evs,
    trace (RoundTrip_each e (req :: reqs) s).2 = trace s ++ evs
    /\ constructed evs = [t]
    /\ roundTrips evs = (fun r => (t, r)) <$> (req :: reqs)
    /\ transport (RoundTrip_each e (req :: reqs) s).1.2 = Some t.
Proof.
  intros Ho Ht. simpl. rewrite bind_run.
  assert (Hfirst : exists t ev,
             (RoundTrip e req s).2.(trace) = trace s ++ [ev; EvRoundTrip t req]
             /\ builtBy ev = Some t
             /\ done (once (RoundTrip e req s).1.2) = true
             /\ transport (RoundTrip e req s).1.2 = Some t).
  { destruct (DoH3Supported e) eqn:Hd.
    - rewrite (RoundTrip_first_H3 e req s Ho Ht Hd). simpl. eauto 10.
    - rewrite (RoundTrip_first_H2 e req s Ho Ht Hd). simpl. eauto 10. }
  destruct Hfirst as (t & ev & Htr & Hev & Hdone & Hset).
  destruct (RoundTrip_each_when_done (RoundTrip e req s).1.2 reqs
              (RoundTrip e req s).2 t Hdone Hset) as (He & evs & Htr' & Hc & Hr).
  exists t, ([ev; EvRoundTrip t req] ++ evs).
  rewrite bind_run. simpl. rewrite Htr', Htr, He, <- app_assoc.
  split; [reflexivity|].
  rewrite Hev, Hc, Hr. split; [reflexivity|]. split; [|exact Hset].
  destruct ev; simpl in Hev |- *; try discriminate; reflexivity.
Qed.

(** For an ASCII hostname the test of the rewrite is equality with
    [dns.nextdns.io] up to the case of the letters. *)
Lemma strings_EqualFold_ASCII (h : string) :
  isASCII h = true ->
  strings_EqualFold h "dns.nextdns.io" = true
  <-> lowerBytes h = lowerBytes "dns.nextdns.io".
Proof. intros Hh. now apply EqualFold_ASCII. Qed.

(** C7.  The first construction.  With the capability flag set, the HTTP/3
    constructor is called with the ordered addresses and with the endpoint
    whose hostname is [doh3.dns.nextdns.io] when [EqualFold] matched
    [dns.nextdns.io], and is the original one otherwise; with the flag
    unset, the HTTP/2 constructor is called with the ordered addresses and
    the endpoint unchanged.  The handle is stored and used for the round
    trip. *)
Theorem RoundTrip_builds_by_capability e req s :
  once e = zeroOnce -> transport e = None ->
  let held := set_once heldOnce e in
  let after := RoundTrip e req s in
  (DoH3Supported e = true ->
   let h := if strings_EqualFold (Hostname e) "dns.nextdns.io"
            then "doh3.dns.nextdns.io" else Hostname e in
   let t := newTransportH3 (set_Hostname h held) (endpointAddrs e) in
   trace after.2 = trace s ++ [EvNewTransportH3 (set_Hostname h held) (endpointAddrs e);
                               EvRoundTrip t req]
   /\ transport after.1.2 = Some t
   /\ Hostname after.1.2 = h)
  /\ (DoH3Supported e = false ->
      let t := newTransportH2 held (endpointAddrs e) in
      trace after.2 = trace s ++ [EvNewTransportH2 held (endpointAddrs e);
                                  EvRoundTrip t req]
      /\ transport after.1.2 = Some t
      /\ Hostname after.1.2 = Hostname e).
Proof.
  intros Ho Ht held after. subst after. split; intros Hd.
  - rewrite (RoundTrip_first_H3 e req s Ho Ht Hd). simpl. auto.
  - rewrite (RoundTrip_first_H2 e req s Ho Ht Hd). simpl. auto.
Qed.

(** ** The hostname rewrite seen through [String] and [Equal] *)

Lemma append_length (a b : string) :
  String.length (a +:+ b) = String.length a + String.length b.
Proof. induction a as [|c a IH]; simpl; [reflexivity | now rewrite IH]. Qed.

Lemma append_cancel_r (a b r : string) : a +:+ r = b +:+ r -> a = b.
Proof.
  revert b. induction a as [|c a IH]; intros [|d b] Heq.
  - reflexivity.
  - apply (f_equal String.length) in Heq. rewrite !append_length in Heq.
    cbn [String.length] in Heq. lia.
  - apply (f_equal String.length) in Heq. rewrite !append_length in Heq.
    cbn [String.length] in Heq. lia.
  - simpl in Heq. injection Heq as -> Heq. f_equal. now apply IH.
Qed.

(** [String] tells two hostnames apart. *)
Lemma String_Hostname_inj e h1 h2 :
  String_ (set_Hostname h1 e) = String_ (set_Hostname h2 e) -> h1 = h2.
Proof.
  unfold String_. simpl.
  destruct (negb (length (Bootstrap e) =? 0)%nat); intros Heq;
    injection Heq as Heq; exact (append_cancel_r h1 h2 _ Heq).
Qed.

Lemma set_Hostname_same e : set_Hostname (Hostname e) e = e.
Proof. now destruct e. Qed.

Lemma Equal_loop_same (b : list string) (idx : list nat) :
  Forall (fun i => i < length b) idx -> Equal_loop b b idx = true.
Proof.
  induction 1 as [|i idx Hi _ IH]; [reflexivity|]. simpl.
  destruct (lookup_lt_is_Some_2 b i Hi) as [x Hx]. rewrite Hx.
  now rewrite String.eqb_refl.
Qed.

(** An endpoint is equal to a copy of itself. *)
Lemma Equal_copy e : Equal e (EpDOH e) = true.
Proof.
  unfold Equal. rewrite !String.eqb_refl, Nat.eqb_refl. simpl.
  apply Equal_loop_same. apply Forall_forall. intros i Hi.
  apply elem_of_seq in Hi. lia.
Qed.

(** [Equal] is false at once when the hostnames differ. *)
Lemma Equal_Hostname_differs e e2 :
  Hostname e <> Hostname e2 -> Equal e (EpDOH e2) = false.
Proof.
  intros Hne. unfold Equal. apply String.eqb_neq in Hne. now rewrite Hne.
Qed.

(** [Equal] reads the hostname, the path and the bootstrap list only. *)
Lemma Equal_reads e e' (e2 : Endpoint) :
  Hostname e = Hostname e' -> Path e = Path e' -> Bootstrap e = Bootstrap e' ->
  Equal e e2 = Equal e' e2.
Proof. intros Hh Hp Hb. unfold Equal. now rewrite Hh, Hp, Hb. Qed.

Lemma String_reads e e' :
  Hostname e = Hostname e' -> Path e = Path e' -> Bootstrap e = Bootstrap e' ->
  String_ e = String_ e'.
Proof. intros Hh Hp Hb. unfold String_. now rewrite Hh, Hp, Hb. Qed.

(** No hostname that folds to [dns.nextdns.io] is [doh3.dns.nextdns.io]. *)
Lemma folded_is_not_doh3 (h : string) :
  strings_EqualFold h "dns.nextdns.io" = true -> h <> "doh3.dns.nextdns.io".
Proof. intros Hf ->. vm_compute in Hf. discriminate. Qed.

(** C9.  The first exchange of an endpoint with the capability flag set
    and a hostname that folds to [dns.nextdns.io] leaves the endpoint with
    the hostname [doh3.dns.nextdns.io], and later calls keep it.  From
    then on [String] and [Equal] are those of the endpoint with the
    rewritten hostname: the text differs from the one before the call,
    and the endpoint is no longer equal to a copy taken before the call,
    nor to any endpoint with the old hostname. *)
Theorem RoundTrip_rewrites_Hostname e req s reqs :
  once e = zeroOnce -> transport e = None -> DoH3Supported e = true ->
  strings_EqualFold (Hostname e) "dns.nextdns.io" = true ->
  let e1 := (RoundTrip e req s).1.2 in
  let s1 := (RoundTrip e req s).2 in
  Hostname e1 = "doh3.dns.nextdns.io"
  /\ Hostname e <> "doh3.dns.nextdns.io"
  /\ (RoundTrip_each e1 reqs s1).1.2 = e1
  /\ String_ e1 = String_ (set_Hostname "doh3.dns.nextdns.io" e)
  /\ String_ e1 <> String_ e
  /\ (forall other : Endpoint,
        Equal e1 other = Equal (set_Hostname "doh3.dns.nextdns.io" e) other)
  /\ Equal e (EpDOH e) = true
  /\ Equal e1 (EpDOH e) = false
  /\ (forall e2, Hostname e2 = Hostname e -> Equal e1 (EpDOH e2) = false).
Proof.
  intros Ho Ht Hd Hf e1 s1.
  pose proof (folded_is_not_doh3 _ Hf) as Hne.
  assert (He1 : e1 = set_once doneOnce
                   (set_transport
                      (Some (newTransportH3
                               (set_Hostname "doh3.dns.nextdns.io" (set_once heldOnce e))
                               (endpointAddrs e)))
                      (set_Hostname "doh3.dns.nextdns.io" (set_once heldOnce e)))).
  { subst e1. rewrite (RoundTrip_first_H3 e req s Ho Ht Hd). simpl. now rewrite Hf. }
  assert (Hh : Hostname e1 = "doh3.dns.nextdns.io") by now rewrite He1.
  assert (Hp : Path e1 = Path e) by now rewrite He1.
  assert (Hb : Bootstrap e1 = Bootstrap e) by now rewrite He1.
  split; [exact Hh|]. split; [exact Hne|].
  split.
  { eapply RoundTrip_each_when_done; rewrite He1; reflexivity. }
  split; [now apply String_reads|].
  split.
  { rewrite (String_reads e1 (set_Hostname "doh3.dns.nextdns.io" e)) by assumption.
    rewrite <- (set_Hostname_same e) at 2. intros Heq.
    apply String_Hostname_inj in Heq. now apply Hne. }
  split; [intros other; now apply Equal_reads|].
  split; [apply Equal_copy|].
  split.
  - apply Equal_Hostname_differs. rewrite Hh. congruence.
  - intros e2 He2. apply Equal_Hostname_differs. rewrite Hh, He2. congruence.
Qed.

End ResolverFacts.

(** ** The exchanger *)

(** Open [Exchange] at the request it built. *)
Ltac Exchange_built Hreq :=
  unfold Exchange; unfold exchangeRequest in Hreq;
  destruct (NewRequest "POST" _ _) as [req0|]; [|discriminate Hreq];
  cbn [fmap option_fmap option_map] in Hreq; injection Hreq as <-; cbv zeta.

Section ExchangerFacts.
Context `{Runtime}.
Implicit Types (e : DOHEndpoint Transport) (s : Sys).

(** [Exchange] builds its request exactly when the URL parses, and does
    not return otherwise. *)
Lemma exchangeRequest_built e ctx payload req :
  exchangeRequest e ctx payload = Some req
  <-> url_Parse ("https://nowhere" +:+ Path e) = true
      /\ req = mkRequest "POST" ("https://nowhere" +:+ Path e)
                 [("Content-Type", ["application/dns-message"])] (Some payload) ctx.
Proof.
  unfold exchangeRequest, NewRequest. rewrite NewRequestWithContext_POST.
  destruct (url_Parse _); cbn; split.
  - intros [= <-]. split; reflexivity.
  - intros [_ ->]. reflexivity.
  - discriminate.
  - intros [? _]. discriminate.
Qed.

Lemma Exchange_unbuilt e ctx payload buf s :
  exchangeRequest e ctx payload = None ->
  Exchange e ctx payload buf s = ((None, e), s).
Proof.
  intros Hreq. unfold Exchange. unfold exchangeRequest in Hreq.
  destruct (NewRequest "POST" _ _); [discriminate Hreq | reflexivity].
Qed.

(** C8.  When the round trip of the request [Exchange] built comes back
    without error and with a status other than 200, [Exchange] returns
    [n = 0] and the error [status: <code>]; the buffer is as the caller
    passed it, the body is closed, and nothing is read. *)
Theorem Exchange_status_error e ctx payload buf s req res e1 s1 :
  exchangeRequest e ctx payload = Some req ->
  RoundTrip e req s = ((Some (RTResponse res), e1), s1) ->
  StatusCode res <> 200%Z ->
  Exchange e ctx payload buf s
  = ((Some (mkExchangeResult 0
              (Some (errorString ("status: " +:+ pretty (StatusCode res)))) buf),
      e1),
     mkSys (world s1) (trace s1 ++ [EvClose (Body res)])).
Proof.
  intros Hreq Hrt Hcode. Exchange_built Hreq.
  rewrite bind_run, Hrt. cbn [fst snd].
  apply Z.eqb_neq in Hcode. rewrite Hcode. cbn [negb].
  unfold Body_Close. rewrite bind_run, emit_run. reflexivity.
Qed.

(** The error text at status 404. *)
Lemma Exchange_404_text : "status: " +:+ pretty 404%Z = "status: 404".
Proof. reflexivity. Qed.

(** X19.  When the round trip of the request [Exchange] built comes
    back with status 200, the body is read once into the buffer and then
    closed: [n] is the number of bytes read, cut at the length of the
    buffer, the bytes of the buffer after them are kept, an end of stream
    is not an error, and any other read error comes back with its text
    after [read: ]. *)
Lemma Exchange_ok e ctx payload buf s req res e1 s1 data err w :
  exchangeRequest e ctx payload = Some req ->
  RoundTrip e req s = ((Some (RTResponse res), e1), s1) ->
  StatusCode res = 200%Z ->
  body_Read (Body res) (length buf) (world s1) = ((data, err), w) ->
  let got := take (length buf) data in
  Exchange e ctx payload buf s
  = ((Some (mkExchangeResult (Z.of_nat (length got))
              (match err with
               | Some err' => if errors.Is_EOF err' then None
                              else Some (errorString ("read: " +:+ errors.Error err'))
               | None => None
               end)
              (got ++ drop (length got) buf)),
      e1),
     mkSys w (trace s1 ++ [EvRead (Body res); EvClose (Body res)])).
Proof.
  intros Hreq Hrt Hcode Hread got. Exchange_built Hreq.
  rewrite bind_run, Hrt. cbn [fst snd]. rewrite Hcode. cbn [Z.eqb Pos.eqb negb].
  unfold Body_Read, Body_Close, call. rewrite !bind_run, emit_run. cbn [fst snd world trace].
  rewrite Hread. cbn [fst snd].
  destruct err as [err'|]; [destruct (errors.Is_EOF err')|];
    cbn [negb]; rewrite bind_run, emit_run; cbn [fst snd world trace];
    rewrite <- app_assoc; reflexivity.
Qed.

End ExchangerFacts.

(** ** The transport resolver, many callers *)

Section GoroutineFacts.
Context `{Runtime}.
Implicit Types (e : DOHEndpoint Transport) (c : Cfg) (pc : PC).

Lemma knows_holdsMutex e0 e built pc :
  knows e0 e built pc -> holdsMutex pc = true -> m (once e) = true.
Proof. destruct pc; simpl; intros Hk Hh; try discriminate; tauto. Qed.

Lemma Inv_enter e0 n : once e0 = zeroOnce -> Inv e0 (enter e0 n).
Proof.
  intros Ho. constructor; simpl.
  - intros i pc Hi. apply lookup_replicate in Hi. destruct Hi as [-> _]. exact I.
  - intros i j pi pj Hi _ Hh. apply lookup_replicate in Hi. destruct Hi as [-> _].
    discriminate.
  - rewrite Ho. discriminate.
  - auto.
  - lia.
  - rewrite Ho. discriminate.
Qed.

(** A goroutine outside the mutex knows the same after another
    goroutine's access, as long as [done] stays set once it is set and the
    transport is not changed while [done] is set. *)
Lemma knows_outside e0 e e' built built' pc :
  holdsMutex pc = false ->
  (done (once e) = true -> done (once e') = true /\ transport e' = transport e) ->
  knows e0 e built pc -> knows e0 e' built' pc.
Proof.
  intros Hh Hkeep. destruct pc; simpl in *; try discriminate; try tauto.
  intros [Hd Ht]. destruct (Hkeep Hd) as [Hd' Ht']. split; congruence.
Qed.

(** While a goroutine holds the mutex, or while the mutex is free, the
    other goroutines are outside it. *)
Lemma others_outside e0 c i pc :
  Inv e0 c -> pool c !! i = Some pc ->
  holdsMutex pc = true \/ m (once (ep c)) = false ->
  forall j pcj, j <> i -> pool c !! j = Some pcj -> holdsMutex pcj = false.
Proof.
  intros HI Hi Hcase j pcj Hne Hj.
  destruct (holdsMutex pcj) eqn:Hh; [exfalso|reflexivity].
  destruct Hcase as [Hpc | Hfree].
  - apply Hne. exact (inv_mutex e0 c HI j i pcj pc Hj Hi Hh Hpc).
  - pose proof (knows_holdsMutex _ _ _ _ (inv_knows e0 c HI j pcj Hj) Hh). congruence.
Qed.

(** Who holds the mutex after goroutine [i] has moved to [pc']. *)
Lemma held_by_me c i pc pc' :
  pool c !! i = Some pc -> holdsMutex pc' = true ->
  exists j pcj, <[i := pc']> (pool c) !! j = Some pcj /\ holdsMutex pcj = true.
Proof.
  intros Hi Hh. exists i, pc'. split; [|exact Hh].
  apply list_lookup_insert_eq. eapply lookup_lt_Some. exact Hi.
Qed.

Lemma held_by_other e0 c i pc pc' :
  Inv e0 c -> pool c !! i = Some pc -> holdsMutex pc = false ->
  m (once (ep c)) = true ->
  exists j pcj, <[i := pc']> (pool c) !! j = Some pcj /\ holdsMutex pcj = true.
Proof.
  intros HI Hi Hh Hm. destruct (inv_held e0 c HI Hm) as (j & pcj & Hj & Hhj).
  exists j, pcj. split; [|exact Hhj].
  rewrite list_lookup_insert_ne; [exact Hj|]. intros <-. congruence.
Qed.

(** The invariant after goroutine [i] has moved to [pc']. *)
Lemma Inv_update e0 c i pc' e' evs :
  (forall j pcj, j <> i -> pool c !! j = Some pcj ->
                 knows e0 e' (constructed (events c ++ evs)) pcj) ->
  knows e0 e' (constructed (events c ++ evs)) pc' ->
  (forall j k pj pk, j <> i -> k <> i -> pool c !! j = Some pj -> pool c !! k = Some pk ->
                     holdsMutex pj = true -> holdsMutex pk = true -> j = k) ->
  (holdsMutex pc' = true ->
   forall j pcj, j <> i -> pool c !! j = Some pcj -> holdsMutex pcj = false) ->
  (done (once e') = true -> settled e0 e' (constructed (events c ++ evs))) ->
  (m (once e') = false -> done (once e') = false ->
   constructed (events c ++ evs) = [] /\ transport e' = transport e0) ->
  length (constructed (events c ++ evs)) <= 1 ->
  (m (once e') = true ->
   exists j pcj, <[i := pc']> (pool c) !! j = Some pcj /\ holdsMutex pcj = true) ->
  Inv e0 (mkCfg e' (<[i := pc']> (pool c)) (events c ++ evs)).
Proof.
  intros Hothers Hmine Hmx Halone Hdone Hidle Honce Hheld.
  constructor; simpl; try assumption.
  - intros j pcj Hj. apply list_lookup_insert_Some in Hj.
    destruct Hj as [(-> & <- & _) | (Hne & Hj)]; [exact Hmine|].
    apply (Hothers j pcj); [congruence | exact Hj].
  - intros j k pj pk Hj Hk Hhj Hhk.
    apply list_lookup_insert_Some in Hj. apply list_lookup_insert_Some in Hk.
    destruct Hj as [(<- & <- & _) | (Hnej & Hj)];
      destruct Hk as [(<- & <- & _) | (Hnek & Hk)].
    + reflexivity.
    + rewrite (Halone Hhj k pk) in Hhk by (try congruence; assumption). discriminate.
    + rewrite (Halone Hhk j pj) in Hhj by (try congruence; assumption). discriminate.
    + apply (Hmx j k pj pk); try assumption; congruence.
Qed.

(** Every access keeps the invariant. *)
Lemma step_Inv e0 c c' : Inv e0 c -> step c c' -> Inv e0 c'.
Proof.
  intros HI Hs. destruct Hs as [c i pc pc' e' evs Hi Hstep].
  pose proof (inv_knows e0 c HI i pc Hi) as Hme.
  pose proof (inv_done e0 c HI) as Hdone.
  pose proof (inv_idle e0 c HI) as Hidle.
  pose proof (inv_once e0 c HI) as Honce.
  assert (Hmx : forall j k pj pk, j <> i -> k <> i ->
                  pool c !! j = Some pj -> pool c !! k = Some pk ->
                  holdsMutex pj = true -> holdsMutex pk = true -> j = k).
  { intros j k pj pk _ _. apply (inv_mutex e0 c HI). }
  assert (Hsame : forall j pcj, j <> i -> pool c !! j = Some pcj ->
                    knows e0 (ep c) (constructed (events c)) pcj).
  { intros j pcj _. apply (inv_knows e0 c HI). }
  assert (Hout : holdsMutex pc = true \/ m (once (ep c)) = false ->
                 forall built' e'',
                   (done (once (ep c)) = true ->
                    done (once e'') = true /\ transport e'' = transport (ep c)) ->
                   forall j pcj, j <> i -> pool c !! j = Some pcj ->
                                 knows e0 e'' built' pcj).
  { intros Hcase built' e'' Hkeep j pcj Hne Hj.
    apply (knows_outside e0 (ep c) e'' (constructed (events c)) built');
      [exact (others_outside e0 c i pc HI Hi Hcase j pcj Hne Hj) | exact Hkeep
       | exact (inv_knows e0 c HI j pcj Hj)]. }
  pose proof (others_outside e0 c i pc HI Hi) as Halone.
  destruct pc; simpl in Hstep, Hme; try discriminate.
  - (* AtDo *)
    injection Hstep as <- <- <-.
    apply Inv_update; rewrite ?app_nil_r; try assumption.
    + destruct (done (once (ep c))) eqn:Hd; simpl; auto.
    + destruct (done (once (ep c))); discriminate.
    + now apply (held_by_other e0 c i AtDo).
  - (* AtLock *)
    destruct (m (once (ep c))) eqn:Hm; [discriminate|].
    injection Hstep as <- <- <-.
    apply Inv_update; rewrite ?app_nil_r; simpl; try assumption.
    + apply Hout; [now right | simpl; auto].
    + split; [reflexivity | intros Hd; now apply Hidle].
    + intros _. apply Halone. now right.
    + intros; discriminate.
    + intros _. now apply (held_by_me c i AtLock).
  - (* AtRecheck *)
    injection Hstep as <- <- <-. destruct Hme as [Hm Hfresh].
    apply Inv_update; rewrite ?app_nil_r; try assumption.
    + destruct (done (once (ep c))) eqn:Hd; simpl; [now split|].
      destruct (Hfresh eq_refl). now repeat split.
    + intros _. apply Halone. left. reflexivity.
    + intros _. apply (held_by_me c i AtRecheck); [assumption|].
      now destruct (done (once (ep c))).
  - (* AtNilCheck *)
    injection Hstep as <- <- <-. destruct Hme as (Hm & Hd & Hb & Ht).
    apply Inv_update; rewrite ?app_nil_r; try assumption.
    + destruct (transport (ep c)) as [t|] eqn:Et; simpl.
      * repeat split; try assumption. unfold settled. rewrite <- Ht, Et. now split.
      * repeat split; try assumption. congruence.
    + intros _. apply Halone. left. reflexivity.
    + intros _. apply (held_by_me c i AtNilCheck); [assumption|].
      now destruct (transport (ep c)).
  - (* AtAddrs *)
    injection Hstep as <- <- <-.
    apply Inv_update; rewrite ?app_nil_r; try assumption.
    + destruct (DoH3Supported (ep c)); exact Hme.
    + intros _. apply Halone. left. reflexivity.
    + intros _. apply (held_by_me c i AtAddrs); [assumption|].
      now destruct (DoH3Supported (ep c)).
  - (* AtFold *)
    injection Hstep as <- <- <-.
    destruct (strings_EqualFold (Hostname (ep c)) "dns.nextdns.io");
      apply Inv_update; rewrite ?app_nil_r; simpl; try assumption;
      intros _; first [ apply Halone; left; reflexivity
                      | now apply (held_by_me c i (AtFold addrs)) ].
  - (* AtNewH3 *)
    injection Hstep as <- <- <-. destruct Hme as (Hm & Hd & Hb & Ht & Ht0).
    apply Inv_update; rewrite ?constructed_app, ?Hb; simpl.
    + apply Hout; [now left | auto].
    + now repeat split.
    + assumption.
    + intros _. apply Halone. now left.
    + intros; congruence.
    + intros; congruence.
    + lia.
    + intros _. now apply (held_by_me c i (AtNewH3 addrs)).
  - (* AtNewH2 *)
    injection Hstep as <- <- <-. destruct Hme as (Hm & Hd & Hb & Ht & Ht0).
    apply Inv_update; rewrite ?constructed_app, ?Hb; simpl.
    + apply Hout; [now left | auto].
    + now repeat split.
    + assumption.
    + intros _. apply Halone. now left.
    + intros; congruence.
    + intros; congruence.
    + lia.
    + intros _. now apply (held_by_me c i (AtNewH2 addrs)).
  - (* AtStore *)
    injection Hstep as <- <- <-. destruct Hme as (Hm & Hd & Hb & Ht & Ht0).
    apply Inv_update; rewrite ?app_nil_r; simpl; try assumption.
    + apply Hout; [now left | simpl; intros; congruence].
    + repeat split; try assumption. unfold settled. rewrite Ht0. simpl. eauto.
    + intros _. apply Halone. now left.
    + intros; congruence.
    + intros; congruence.
    + intros _. now apply (held_by_me c i (AtStore t)).
  - (* AtStoreDone *)
    injection Hstep as <- <- <-. destruct Hme as (Hm & Hd & Hs).
    apply Inv_update; rewrite ?app_nil_r; simpl; try assumption.
    + apply Hout; [now left | simpl; intros; congruence].
    + now split.
    + intros _. apply Halone. now left.
    + intros _. exact Hs.
    + intros; discriminate.
    + intros _. now apply (held_by_me c i AtStoreDone).
  - (* AtUnlock *)
    injection Hstep as <- <- <-. destruct Hme as (Hm & Hd).
    apply Inv_update; rewrite ?app_nil_r; simpl; try assumption.
    + apply Hout; [now left | simpl; auto].
    + intros; discriminate.
    + intros; congruence.
    + intros; discriminate.
  - (* AtLoad *)
    injection Hstep as <- <- <-.
    apply Inv_update; rewrite ?app_nil_r; try assumption.
    + destruct (transport (ep c)) as [t|] eqn:Et; simpl; [now split|].
      specialize (Hdone Hme). unfold settled in Hdone.
      destruct (transport e0); [destruct Hdone | destruct Hdone as (t & _ & Hd)];
        congruence.
    + destruct (transport (ep c)); intros; discriminate.
    + now apply (held_by_other e0 c i AtLoad).
Qed.

Lemma steps_Inv e0 c c' : Inv e0 c -> rtc step c c' -> Inv e0 c'.
Proof. intros HI Hs. induction Hs; eauto using step_Inv. Qed.

(** Once [done] is set, no access changes the handle, the hostname or
    the handles constructed. *)
Lemma step_after_done e0 c c' :
  Inv e0 c -> done (once (ep c)) = true -> step c c' ->
  done (once (ep c')) = true
  /\ transport (ep c') = transport (ep c)
  /\ Hostname (ep c') = Hostname (ep c)
  /\ constructed (events c') = constructed (events c).
Proof.
  intros HI Hd Hs. destruct Hs as [c i pc pc' e' evs Hi Hstep].
  pose proof (inv_knows e0 c HI i pc Hi) as Hme.
  destruct pc; simpl in Hstep, Hme; try discriminate;
    try (destruct (m (once (ep c))); [discriminate|]);
    injection Hstep as <- <- <-; simpl; rewrite ?app_nil_r;
    try (repeat split; (assumption || reflexivity));
    destruct_and?; congruence.
Qed.

Lemma steps_after_done e0 c c' :
  Inv e0 c -> done (once (ep c)) = true -> rtc step c c' ->
  done (once (ep c')) = true
  /\ transport (ep c') = transport (ep c)
  /\ Hostname (ep c') = Hostname (ep c)
  /\ constructed (events c') = constructed (events c).
Proof.
  intros HI Hd Hs. induction Hs as [c | c c1 c2 Hs1 Hs IH]; [auto|].
  destruct (step_after_done e0 c c1 HI Hd Hs1) as (Hd1 & Ht1 & Hh1 & Hb1).
  destruct (IH (step_Inv e0 c c1 HI Hs1) Hd1) as (Hd2 & Ht2 & Hh2 & Hb2).
  repeat split; congruence.
Qed.

(** A schedule is a run. *)
Lemma turn_steps c i : rtc step c (turn c i).
Proof.
  unfold turn. destruct (pool c !! i) as [pc|] eqn:Hi; [|reflexivity].
  destruct (thread_step pc (ep c)) as [[[pc' e'] evs]|] eqn:Hstep; [|reflexivity].
  apply rtc_once. now apply (step_goroutine c i pc).
Qed.

Lemma play_steps schedule c : rtc step c (play schedule c).
Proof.
  revert c. induction schedule as [|i schedule IH]; intros c; [reflexivity|].
  simpl. etrans; [apply turn_steps | apply IH].
Qed.

(** ** Every call comes back *)

Lemma thread_step_remaining pc e pc' e' evs :
  thread_step pc e = Some (pc', e', evs) -> remaining pc' < remaining pc.
Proof.
  destruct pc; simpl; try discriminate;
    try (destruct (m (once e)); [discriminate|]);
    intros [= <- <- <-];
    try destruct (done (once e)); try destruct (transport e);
    try destruct (DoH3Supported e); simpl; lia.
Qed.

Lemma sum_list_with_insert {A} (f : A -> nat) (l : list A) (i : nat) (x y : A) :
  l !! i = Some x ->
  sum_list_with f (<[i := y]> l) + f x = sum_list_with f l + f y.
Proof.
  revert i. induction l as [|a l IH]; intros [|i] Hi; simpl in *; try discriminate.
  - injection Hi as ->. lia.
  - specialize (IH i Hi). lia.
Qed.

Lemma step_fuel c c' : step c c' -> fuel c' < fuel c.
Proof.
  intros [c0 i pc pc' e' evs Hi Hstep]. unfold fuel. simpl.
  pose proof (thread_step_remaining _ _ _ _ _ Hstep).
  pose proof (sum_list_with_insert remaining (pool c0) i pc pc' Hi). lia.
Qed.

Lemma steps_fuel c c' : rtc step c c' -> fuel c' <= fuel c.
Proof.
  induction 1 as [|c c1 c2 Hs _ IH]; [lia|]. apply step_fuel in Hs. lia.
Qed.

(** A run of [k] accesses uses up [k] of the fuel. *)
Lemma nsteps_fuel k c c' : nsteps step k c c' -> k + fuel c' <= fuel c.
Proof.
  induction 1 as [|k c c1 c2 Hs _ IH]; [lia|]. apply step_fuel in Hs. lia.
Qed.

Lemma fuel_enter e n : fuel (enter e n) = 11 * n.
Proof.
  unfold fuel, enter. simpl. induction n as [|n IH]; simpl; [reflexivity|].
  rewrite IH. lia.
Qed.

(** Either a goroutine is short of the round trip, or none is. *)
Lemma pool_pending (l : list PC) :
  (forall i pc, l !! i = Some pc -> remaining pc = 0)
  \/ (exists i pc, l !! i = Some pc /\ remaining pc <> 0).
Proof.
  induction l as [|a l [IH | (i & pc & Hi & Hpc)]].
  - left. intros i pc Hi. discriminate.
  - destruct (decide (remaining a = 0)) as [Ha | Ha].
    + left. intros [|i] pc Hi; simpl in Hi; [congruence | eauto].
    + right. exists 0, a. auto.
  - right. exists (S i), pc. auto.
Qed.

(** No deadlock: while a goroutine is short of the round trip, some
    goroutine can make an access. *)
Lemma progress e0 c : Inv e0 c -> allCalled c \/ exists c', step c c'.
Proof.
  intros HI. destruct (pool_pending (pool c)) as [Hall | (i & pc & Hi & Hpc)].
  - left. intros i pc Hi. pose proof (inv_knows e0 c HI i pc Hi) as Hk.
    specialize (Hall i pc Hi). destruct pc; simpl in Hall, Hk; try discriminate.
    + exists t. now destruct Hk.
    + contradiction.
  - right.
    assert (Hmove : forall j pcj, pool c !! j = Some pcj ->
                      is_Some (thread_step pcj (ep c)) -> exists c', step c c').
    { intros j pcj Hj [[[pc' e'] evs] Hs]. eexists. exact (step_goroutine c j pcj _ _ _ Hj Hs). }
    destruct pc; simpl in Hpc; try congruence;
      try (apply (Hmove i _ Hi); simpl; eauto; fail).
    destruct (m (once (ep c))) eqn:Hm.
    + destruct (inv_held e0 c HI Hm) as (j & pcj & Hj & Hh).
      apply (Hmove j pcj Hj). destruct pcj; simpl in *; try discriminate; eauto.
    + apply (Hmove i AtLock Hi). simpl. rewrite Hm. eauto.
Qed.

(** Every run can be carried on until all goroutines have reached the
    round trip. *)
Lemma completion e0 c : Inv e0 c -> exists c', rtc step c c' /\ allCalled c'.
Proof.
  remember (fuel c) as k eqn:Hk. revert c Hk.
  induction k as [k IH] using lt_wf_ind. intros c -> HI.
  destruct (progress e0 c HI) as [Hall | [c1 Hs]].
  - exists c. split; [reflexivity | exact Hall].
  - destruct (IH (fuel c1) (step_fuel c c1 Hs) c1 eq_refl (step_Inv e0 c c1 HI Hs))
      as (c' & Hrun & Hall).
    exists c'. split; [|exact Hall]. eapply rtc_l; eassumption.
Qed.

(** One goroutine alone makes the accesses of [RoundTrip] as the
    sequential embedding has it: eleven turns bring it to the round trip
    (or to the nil dereference) with the same endpoint and the same
    events. *)
Lemma RoundTrip_is_solo_run e req s :
  m (once e) = false ->
  let c := play (replicate 11 0) (mkCfg e [AtDo] (trace s)) in
  let after := RoundTrip e req s in
  ep c = after.1.2
  /\ match after.1.1 with
     | Some r =>
         exists t, pool c = [Called t]
                   /\ (r, world after.2) = transport_RoundTrip t req (world s)
                   /\ trace after.2 = events c ++ [EvRoundTrip t req]
     | None => pool c = [Panicked] /\ trace after.2 = events c
     end.
Proof.
  destruct e as [h p b a d3 f [d mm] [t|]]; cbn [once m]; intros ->.
  all: destruct d, d3; unfold play, RoundTrip, Once_Do, initTransport;
    destruct (strings_EqualFold h "dns.nextdns.io") eqn:E;
    cbn -[strings_EqualFold endpointAddrs]; rewrite ?E;
    cbn -[strings_EqualFold endpointAddrs];
    unfold bind, roundTrip, mkTransportH3, mkTransportH2, call, bind, emit, ret;
    cbn -[strings_EqualFold endpointAddrs]; rewrite ?app_nil_r;
    try (destruct (transport_RoundTrip _ _ _) as [r w] eqn:Ert);
    cbn -[strings_EqualFold endpointAddrs]; rewrite <- ?app_assoc;
    (split; [reflexivity|]).
  all: try (split; reflexivity).
  all: eexists; split; [reflexivity|]; split;
    [symmetry; exact Ert | rewrite <- ?app_assoc; reflexivity].
Qed.

(** C1.  Goroutines that enter [RoundTrip] on an endpoint whose [Once] has
    not run, in any interleaving of their accesses: at most one handle is
    ever constructed; no goroutine finds the handle unset; every goroutine
    that reaches the round trip uses the handle stored in the endpoint, so
    that all use the same one; when the endpoint came without a handle and
    [done] is set, exactly one handle was constructed and it is the one
    stored; once [done] is set the handle and the list of constructed
    handles never change again; the run can be carried on until every
    goroutine has reached the round trip, and no run makes more than
    eleven accesses per goroutine. *)
Theorem RoundTrip_constructs_once e0 n c :
  once e0 = zeroOnce ->
  rtc step (enter e0 n) c ->
  length (constructed (events c)) <= 1
  /\ (forall i, pool c !! i <> Some Panicked)
  /\ (forall i t, pool c !! i = Some (Called t) -> transport (ep c) = Some t)
  /\ (forall i j t t',
        pool c !! i = Some (Called t) -> pool c !! j = Some (Called t') -> t = t')
  /\ (transport e0 = None -> done (once (ep c)) = true ->
      exists t, constructed (events c) = [t] /\ transport (ep c) = Some t)
  /\ (forall c', done (once (ep c)) = true -> rtc step c c' ->
                 done (once (ep c')) = true
                 /\ transport (ep c') = transport (ep c)
                 /\ constructed (events c') = constructed (events c))
  /\ (exists c', rtc step c c' /\ allCalled c')
  /\ (forall k c', nsteps step k c c' -> k <= 11 * n).
Proof.
  intros Ho Hrun.
  pose proof (steps_Inv e0 _ c (Inv_enter e0 n Ho) Hrun) as HI.
  assert (Hcalled : forall i t, pool c !! i = Some (Called t) ->
                                transport (ep c) = Some t).
  { intros i t Hi. now destruct (inv_knows e0 c HI i _ Hi). }
  split; [exact (inv_once e0 c HI)|].
  split; [intros i Hi; exact (inv_knows e0 c HI i _ Hi)|].
  split; [exact Hcalled|].
  split.
  { intros i j t t' Hi Hj. pose proof (Hcalled i t Hi). pose proof (Hcalled j t' Hj).
    congruence. }
  split.
  { intros Hnone Hd. pose proof (inv_done e0 c HI Hd) as Hs. unfold settled in Hs.
    now rewrite Hnone in Hs. }
  split.
  { intros c' Hd Hsteps.
    destruct (steps_after_done e0 c c' HI Hd Hsteps) as (Hd' & Ht' & _ & Hb').
    auto. }
  split; [exact (completion e0 c HI)|].
  intros k c' Hk. apply nsteps_fuel in Hk. apply steps_fuel in Hrun.
  rewrite fuel_enter in Hrun. lia.
Qed.

End GoroutineFacts.

(** * Further properties of the package *)

(** ** [Equal] and [String] *)

Section EqualFacts.
Context `{Runtime}.
Implicit Types (e : DOHEndpoint Transport).

(** The loop of [Equal] over the indexes [k, k+n) compares the two slices
    there. *)
Lemma Equal_loop_seq (b b2 : list string) (k n : nat) :
  Equal_loop b b2 (seq k n) = true
  <-> forall i, k <= i < k + n -> exists x, b !! i = Some x /\ b2 !! i = Some x.
Proof.
  revert k. induction n as [|n IH]; intros k; simpl.
  - split; [intros _ i Hi; lia | reflexivity].
  - destruct (b !! k) as [x|] eqn:Hx; destruct (b2 !! k) as [y|] eqn:Hy.
    + destruct (String.eqb_spec x y) as [->|Hne]; simpl.
      * rewrite IH. split.
        -- intros Hall i Hi. destruct (decide (i = k)) as [->|Hik]; [eauto|].
           apply Hall. lia.
        -- intros Hall i Hi. apply Hall. lia.
      * split; [discriminate|]. intros Hall.
        destruct (Hall k ltac:(lia)) as (z & Hz1 & Hz2). congruence.
    + split; [discriminate|]. intros Hall.
      destruct (Hall k ltac:(lia)) as (z & Hz1 & Hz2). congruence.
    + split; [discriminate|]. intros Hall.
      destruct (Hall k ltac:(lia)) as (z & Hz1 & Hz2). congruence.
    + split; [discriminate|]. intros Hall.
      destruct (Hall k ltac:(lia)) as (z & Hz1 & Hz2). congruence.
Qed.

Lemma Equal_loop_lists (b b2 : list string) :
  length b = length b2 ->
  Equal_loop b b2 (seq 0 (length b)) = true <-> b = b2.
Proof.
  intros Hlen. rewrite Equal_loop_seq. split.
  - intros Hall. apply list_eq. intros i.
    destruct (decide (i < length b)) as [Hi|Hi].
    + destruct (Hall i ltac:(lia)) as (x & -> & ->). reflexivity.
    + rewrite !lookup_ge_None_2 by lia. reflexivity.
  - intros <- i Hi. destruct (lookup_lt_is_Some_2 b i ltac:(lia)) as [x Hx]. eauto.
Qed.

(** [Equal] between two DoH endpoints, field by field. *)
Lemma Equal_EpDOH e e2 :
  Equal e (EpDOH e2) = true
  <-> Hostname e = Hostname e2 /\ Path e = Path e2 /\ Bootstrap e = Bootstrap e2.
Proof.
  unfold Equal.
  destruct (String.eqb_spec (Hostname e) (Hostname e2)) as [Hh|Hh]; simpl;
    [|split; [discriminate | tauto]].
  destruct (String.eqb_spec (Path e) (Path e2)) as [Hp|Hp]; simpl;
    [|split; [discriminate | tauto]].
  destruct (Nat.eqb_spec (length (Bootstrap e)) (length (Bootstrap e2))) as [Hl|Hl];
    simpl.
  - rewrite (Equal_loop_lists _ _ Hl). tauto.
  - split; [discriminate|]. intros (_ & _ & Hb). now rewrite Hb in Hl.
Qed.

(** X1.  [Equal] is true exactly when the other endpoint is a DoH endpoint
    with the same hostname, the same path and the same bootstrap list,
    address by address in the same order; the ALPN list, the capability
    flag, the preferred address and the transport play no part. *)
Theorem Equal_structural e (other : Endpoint) :
  Equal e other = true
  <-> exists e2, other = EpDOH e2
                 /\ Hostname e = Hostname e2 /\ Path e = Path e2
                 /\ Bootstrap e = Bootstrap e2.
Proof.
  destruct other as [e2|o].
  - rewrite Equal_EpDOH. split.
    + intros Hf. exists e2. auto.
    + intros (e3 & [= <-] & Hf). exact Hf.
  - simpl. split; [discriminate|]. intros (e3 & Habs & _). discriminate.
Qed.

(** X2.  On DoH endpoints [Equal] is reflexive, symmetric and
    transitive. *)
Theorem Equal_equivalence e e2 e3 :
  Equal e (EpDOH e) = true
  /\ Equal e (EpDOH e2) = Equal e2 (EpDOH e)
  /\ (Equal e (EpDOH e2) = true -> Equal e2 (EpDOH e3) = true ->
      Equal e (EpDOH e3) = true).
Proof.
  split; [apply Equal_EpDOH; auto|]. split.
  - destruct (Equal e (EpDOH e2)) eqn:E1; destruct (Equal e2 (EpDOH e)) eqn:E2;
      try reflexivity.
    + apply Equal_EpDOH in E1. destruct E1 as (Hh & Hp & Hb).
      assert (Equal e2 (EpDOH e) = true) by (apply Equal_EpDOH; auto). congruence.
    + apply Equal_EpDOH in E2. destruct E2 as (Hh & Hp & Hb).
      assert (Equal e (EpDOH e2) = true) by (apply Equal_EpDOH; auto). congruence.
  - rewrite !Equal_EpDOH. intros (Hh & Hp & Hb) (Hh' & Hp' & Hb').
    repeat split; congruence.
Qed.

(** X3.  Endpoints that are [Equal] have the same text form. *)
Theorem Equal_same_String e e2 :
  Equal e (EpDOH e2) = true -> String_ e = String_ e2.
Proof.
  intros Heq. apply Equal_EpDOH in Heq. destruct Heq as (Hh & Hp & Hb).
  unfold String_. now rewrite Hh, Hp, Hb.
Qed.

End EqualFacts.

(** ** More on the address orderer *)

Section AddressOrdererMore.
Context {T : Type}.
Implicit Types (e : DOHEndpoint T) (ip a : string).

Lemma withPort_twice ip : withPort (withPort ip) = withPort ip.
Proof. apply withPort_with_colon, withPort_has_colon. Qed.

Lemma fmap_withPort_twice (l : list string) :
  withPort <$> (withPort <$> l) = withPort <$> l.
Proof.
  induction l as [|ip l IH]; [reflexivity|].
  now rewrite !fmap_cons, withPort_twice, IH.
Qed.

Lemma fmap_withPort_filter (p : string) (l : list string) :
  withPort <$> filter (fun a => a <> p) (withPort <$> l)
  = filter (fun a => a <> p) (withPort <$> l).
Proof.
  induction l as [|ip l IH]; [reflexivity|]. rewrite fmap_cons.
  destruct (decide (withPort ip <> p)).
  - rewrite filter_cons_True by assumption.
    now rewrite fmap_cons, withPort_twice, IH.
  - rewrite filter_cons_False by assumption. exact IH.
Qed.

Lemma filter_twice (p : string) (l : list string) :
  filter (fun a => a <> p) (filter (fun a => a <> p) l) = filter (fun a => a <> p) l.
Proof.
  induction l as [|a l IH]; [reflexivity|].
  destruct (decide (a <> p)).
  - rewrite !filter_cons_True by assumption. now rewrite IH.
  - rewrite filter_cons_False by assumption. exact IH.
Qed.

(** X4.  The orderer neither loses nor invents an address: the result
    holds the normalised bootstrap addresses and, when one is set, the
    normalised preferred address, and nothing else; it has at most one
    element more than the bootstrap list, and as many when no preferred
    address is set. *)
Theorem endpointAddrs_members e :
  (forall a, a ∈ endpointAddrs e
             <-> a ∈ withPort <$> Bootstrap e
                 \/ (FastestIP e <> "" /\ a = withPort (FastestIP e)))
  /\ length (endpointAddrs e) <= S (length (Bootstrap e))
  /\ (FastestIP e = "" -> length (endpointAddrs e) = length (Bootstrap e))
  /\ (FastestIP e <> "" -> 1 <= length (endpointAddrs e)).
Proof.
  rewrite endpointAddrs_unfold.
  destruct (String.eqb_spec (FastestIP e) "") as [Hf|Hf].
  - split; [|rewrite length_fmap; repeat split; (lia || contradiction)].
    intros a. split; [auto | intros [Ha | [Hne _]]; [exact Ha | contradiction]].
  - split.
    + intros a. rewrite elem_of_cons, list_elem_of_filter. split.
      * intros [-> | [_ Ha]]; auto.
      * intros [Ha | [_ ->]]; [|auto].
        destruct (decide (a = withPort (FastestIP e))); auto.
    + simpl. pose proof (length_filter (fun a => a <> withPort (FastestIP e))
                                       (withPort <$> Bootstrap e)) as Hlen.
      rewrite length_fmap in Hlen. repeat split; (lia || contradiction).
Qed.

(** X5.  Ordering is idempotent: with the ordered list put back as the
    bootstrap list, the orderer returns the same list. *)
Theorem endpointAddrs_idempotent e :
  endpointAddrs (set_Bootstrap (endpointAddrs e) e) = endpointAddrs e.
Proof.
  rewrite !endpointAddrs_unfold. simpl.
  destruct (String.eqb (FastestIP e) "").
  - apply fmap_withPort_twice.
  - f_equal. simpl. rewrite withPort_twice, fmap_withPort_filter.
    rewrite filter_cons_False by (intros Hne; now apply Hne).
    apply filter_twice.
Qed.

End AddressOrdererMore.

(** ** Addresses without a port *)

Lemma ascii_dec_eqb (a b : ascii) :
  (if Ascii.ascii_dec a b then true else false) = Ascii.eqb a b.
Proof.
  destruct (Ascii.ascii_dec a b) as [->|Hne].
  - now rewrite Ascii.eqb_refl.
  - symmetry. now apply Ascii.eqb_neq.
Qed.

(** [Contains] of a one-byte string is a search for that byte. *)
Lemma Contains_byte (s : string) (c : ascii) :
  Contains s (String c EmptyString) = false <-> IndexByte s c = None.
Proof.
  induction s as [|a s IH]; simpl; [tauto|].
  destruct (Ascii.ascii_dec c a) as [->|Hne].
  - rewrite Ascii.eqb_refl. destruct s; simpl; split; discriminate.
  - assert (Hac : Ascii.eqb a c = false) by (apply Ascii.eqb_neq; congruence).
    rewrite Hac. simpl. rewrite IH. destruct (IndexByte s c); simpl; split;
      (discriminate || reflexivity).
Qed.

Lemma append_nil_l (r : string) : "" +:+ r = r.
Proof. reflexivity. Qed.

Lemma append_cons (a : ascii) (s r : string) : String a s +:+ r = String a (s +:+ r).
Proof. reflexivity. Qed.

Lemma IndexByte_append_None (s r : string) (c : ascii) :
  IndexByte s c = None -> IndexByte r c = None -> IndexByte (s +:+ r) c = None.
Proof.
  intros Hs Hr. induction s as [|a s IH]; [exact Hr|].
  rewrite append_cons. simpl in *.
  destruct (Ascii.eqb a c); [discriminate|].
  destruct (IndexByte s c); [discriminate|]. now rewrite (IH eq_refl).
Qed.

Lemma LastIndexByte_append_None (s r : string) (c : ascii) (i : nat) :
  IndexByte s c = None -> LastIndexByte r c = Some i ->
  LastIndexByte (s +:+ r) c = Some (String.length s + i).
Proof.
  intros Hs Hr. induction s as [|a s IH]; [exact Hr|].
  rewrite append_cons. simpl in *.
  destruct (Ascii.eqb a c); [discriminate|].
  destruct (IndexByte s c); [discriminate|]. now rewrite (IH eq_refl).
Qed.

Lemma substring_all (s : string) : String.substring 0 (String.length s) s = s.
Proof. induction s as [|a s IH]; simpl; [reflexivity | now rewrite IH]. Qed.

Lemma substring_prefix (s r : string) :
  String.substring 0 (String.length s) (s +:+ r) = s.
Proof.
  induction s as [|a s IH]; [now destruct r|].
  rewrite append_cons. simpl. now rewrite IH.
Qed.

Lemma substring_suffix (s r : string) :
  String.substring (String.length s) (String.length r) (s +:+ r) = r.
Proof.
  induction s as [|a s IH]; [apply substring_all|].
  rewrite append_cons. simpl. exact IH.
Qed.

Lemma append_assoc (s r u : string) : (s +:+ r) +:+ u = s +:+ (r +:+ u).
Proof.
  induction s as [|a s IH]; [reflexivity|]. rewrite !append_cons. now rewrite IH.
Qed.

(** [net.SplitHostPort] takes apart what [net.JoinHostPort] made of a
    plain host and the port 443. *)
Lemma SplitHostPort_plain (ip : string) :
  plainHost ip = true -> SplitHostPort (ip +:+ ":443") = Some (ip, "443").
Proof.
  unfold plainHost. intros Hp.
  apply andb_true_iff in Hp. destruct Hp as [Hp Hr].
  apply andb_true_iff in Hp. destruct Hp as [Hc Hl].
  apply negb_true_iff in Hc, Hl, Hr.
  apply Contains_byte in Hc, Hl, Hr.
  unfold SplitHostPort.
  rewrite (LastIndexByte_append_None ip ":443" ":" 0 Hc eq_refl). rewrite Nat.add_0_r.
  assert (Hpre : String.prefix "[" (ip +:+ ":443") = false).
  { destruct ip as [|a ip]; [reflexivity|]. rewrite append_cons.
    cbn [String.prefix]. destruct (Ascii.ascii_dec "[" a) as [<-|Hne]; [|reflexivity].
    simpl in Hl. discriminate. }
  rewrite Hpre. unfold sliceTo, sliceFrom. rewrite substring_prefix, Hc.
  rewrite Nat.sub_0_r, substring_all.
  rewrite (IndexByte_append_None _ ":443" _ Hl eq_refl).
  rewrite (IndexByte_append_None _ ":443" _ Hr eq_refl). simpl.
  rewrite append_length. simpl.
  replace (String.length ip + 4 - (String.length ip + 1)) with (String.length "443")
    by (simpl; lia).
  replace (String.length ip + 1) with (String.length (ip +:+ ":"))
    by (rewrite append_length; reflexivity).
  change (ip +:+ ":443") with (ip +:+ (":" +:+ "443")).
  rewrite <- append_assoc. now rewrite substring_suffix.
Qed.

(** X6.  When the bootstrap addresses and the preferred address are plain
    hosts (no colon, no bracket), every address of the result carries the
    port 443 explicitly, and is the address the handshake probe dials for
    the same host. *)
Theorem endpointAddrs_plain_hosts {T} (e : DOHEndpoint T) (a : string) :
  Forall (fun ip => plainHost ip = true) (Bootstrap e) ->
  (FastestIP e = "" \/ plainHost (FastestIP e) = true) ->
  a ∈ endpointAddrs e ->
  exists ip, SplitHostPort a = Some (ip, "443") /\ a = probeAddr ip
             /\ (ip ∈ Bootstrap e \/ ip = FastestIP e).
Proof.
  intros Hb Hf Ha.
  assert (Hone : forall ip, plainHost ip = true ->
                   SplitHostPort (withPort ip) = Some (ip, "443")
                   /\ withPort ip = probeAddr ip).
  { intros ip Hp. pose proof (SplitHostPort_plain ip Hp) as Hs.
    unfold plainHost in Hp. apply andb_true_iff in Hp. destruct Hp as [Hp _].
    apply andb_true_iff in Hp. destruct Hp as [Hc _]. apply negb_true_iff in Hc.
    rewrite (withPort_without_colon ip Hc). split; [exact Hs|].
    unfold probeAddr, JoinHostPort. now rewrite Hc. }
  rewrite endpointAddrs_unfold in Ha. rewrite Forall_forall in Hb.
  assert (Hboot : a ∈ withPort <$> Bootstrap e ->
                  exists ip, SplitHostPort a = Some (ip, "443") /\ a = probeAddr ip
                             /\ (ip ∈ Bootstrap e \/ ip = FastestIP e)).
  { intros Hin. apply list_elem_of_fmap in Hin. destruct Hin as (ip & -> & Hip).
    exists ip. destruct (Hone ip (Hb ip Hip)). auto. }
  destruct (String.eqb_spec (FastestIP e) "") as [Hempty|Hne]; [auto|].
  apply elem_of_cons in Ha. destruct Ha as [-> | Ha].
  - destruct Hf as [Hf|Hf]; [contradiction|]. exists (FastestIP e).
    destruct (Hone _ Hf). auto.
  - apply list_elem_of_filter in Ha. destruct Ha as [_ Ha]. auto.
Qed.

(** ** More on the transport resolver *)

Section ResolverMore.
Context `{Runtime}.
Implicit Types (e : DOHEndpoint Transport) (s : Sys) (req : Request Ctx).

(** X7.  An endpoint that comes with a transport keeps it: the first
    [RoundTrip] constructs nothing, makes its round trip on that handle
    and leaves the hostname as it is, whatever the capability flag and the
    hostname are. *)
Theorem RoundTrip_preset_transport e req s t :
  once e = zeroOnce -> transport e = Some t ->
  RoundTrip e req s
  = ((Some (transport_RoundTrip t req (world s)).1, set_once doneOnce e),
     mkSys (transport_RoundTrip t req (world s)).2 (trace s ++ [EvRoundTrip t req]))
  /\ Hostname (RoundTrip e req s).1.2 = Hostname e
  /\ transport (RoundTrip e req s).1.2 = Some t.
Proof.
  intros Ho Ht.
  assert (Heq : RoundTrip e req s
                = ((Some (transport_RoundTrip t req (world s)).1, set_once doneOnce e),
                   mkSys (transport_RoundTrip t req (world s)).2
                         (trace s ++ [EvRoundTrip t req]))).
  { unfold RoundTrip, Once_Do, initTransport. rewrite Ho. simpl. rewrite Ht.
    unfold bind, roundTrip, call, bind, emit, ret. simpl. rewrite Ht.
    destruct (transport_RoundTrip _ _ _); reflexivity. }
  rewrite Heq. simpl. auto.
Qed.

(** The endpoint after the first [RoundTrip] has [done] set and holds a
    handle. *)
Lemma RoundTrip_first_settles e req s :
  once e = zeroOnce -> transport e = None ->
  exists t, once (RoundTrip e req s).1.2 = doneOnce
            /\ transport (RoundTrip e req s).1.2 = Some t
            /\ roundTrips (trace (RoundTrip e req s).2)
               = roundTrips (trace s) ++ [(t, req)].
Proof.
  intros Ho Ht. destruct (DoH3Supported e) eqn:Hd.
  - rewrite (RoundTrip_first_H3 e req s Ho Ht Hd). simpl. eexists.
    split; [reflexivity|]. split; [reflexivity|].
    rewrite roundTrips_app. reflexivity.
  - rewrite (RoundTrip_first_H2 e req s Ho Ht Hd). simpl. eexists.
    split; [reflexivity|]. split; [reflexivity|].
    rewrite roundTrips_app. reflexivity.
Qed.

(** X8.  The choice of transport is pinned by the first call.  Whatever
    is changed in the endpoint afterwards (the capability flag, the
    preferred address, the bootstrap list, the hostname), as long as its
    [Once] and its handle are those the first call left, a later
    [RoundTrip] makes its round trip on the handle of the first call,
    constructs nothing and leaves the endpoint as it finds it. *)
Theorem RoundTrip_capability_pinned e req s e2 req2 s2 :
  once e = zeroOnce -> transport e = None ->
  once e2 = once (RoundTrip e req s).1.2 ->
  transport e2 = transport (RoundTrip e req s).1.2 ->
  exists t,
    roundTrips (trace (RoundTrip e req s).2) = roundTrips (trace s) ++ [(t, req)]
    /\ RoundTrip e2 req2 s2
       = ((Some (transport_RoundTrip t req2 (world s2)).1, e2),
          mkSys (transport_RoundTrip t req2 (world s2)).2
                (trace s2 ++ [EvRoundTrip t req2])).
Proof.
  intros Ho Ht Ho2 Ht2.
  destruct (RoundTrip_first_settles e req s Ho Ht) as (t & Hdone & Hset & Hrt).
  exists t. split; [exact Hrt|].
  apply RoundTrip_when_done; [rewrite Ho2, Hdone; reflexivity | congruence].
Qed.

(** X9.  [RoundTrip] writes the [Once], the transport and the hostname
    and nothing else: the path, the bootstrap list, the ALPN list, the
    capability flag and the preferred address are as before, the hostname
    is as before or is [doh3.dns.nextdns.io], and the ordered address list
    is the same.  [Exchange] leaves the endpoint as the [RoundTrip] of the
    request it built does, and leaves everything as it is when it cannot
    build the request and does not return. *)
Theorem RoundTrip_frame e req s :
  let e1 := (RoundTrip e req s).1.2 in
  Path e1 = Path e /\ Bootstrap e1 = Bootstrap e /\ ALPN e1 = ALPN e
  /\ DoH3Supported e1 = DoH3Supported e /\ FastestIP e1 = FastestIP e
  /\ (Hostname e1 = Hostname e \/ Hostname e1 = "doh3.dns.nextdns.io")
  /\ endpointAddrs e1 = endpointAddrs e
  /\ (forall ctx payload buf,
        match exchangeRequest e ctx payload with
        | Some req' =>
            (Exchange e ctx payload buf s).1.2 = (RoundTrip e req' s).1.2
        | None => Exchange e ctx payload buf s = ((None, e), s)
        end).
Proof.
  intros e1.
  assert (Hfields : Path e1 = Path e /\ Bootstrap e1 = Bootstrap e /\ ALPN e1 = ALPN e
                    /\ DoH3Supported e1 = DoH3Supported e /\ FastestIP e1 = FastestIP e
                    /\ (Hostname e1 = Hostname e \/ Hostname e1 = "doh3.dns.nextdns.io")).
  { subst e1. unfold RoundTrip, Once_Do, initTransport.
    destruct e as [h p b a d3 f [d mm] [t|]]; cbn [once done m transport DoH3Supported];
      destruct d, mm, d3; try destruct (strings_EqualFold _ _);
      unfold bind, roundTrip, mkTransportH3, mkTransportH2, call, bind, emit, ret;
      cbn -[endpointAddrs strings_EqualFold];
      try destruct (transport_RoundTrip _ _ _); cbn; auto 10. }
  destruct Hfields as (Hp & Hb & Ha & Hd & Hf & Hh).
  repeat (split; [assumption|]). split.
  - unfold endpointAddrs. now rewrite Hb, Hf.
  - intros ctx payload buf.
    destruct (exchangeRequest e ctx payload) as [req'|] eqn:Hreq;
      [|now apply Exchange_unbuilt].
    Exchange_built Hreq. rewrite bind_run.
    destruct (RoundTrip e (WithContext ctx _) s) as [[[r|] e2] s2]; [|reflexivity].
    cbn [fst snd]. destruct r as [res | err resp].
    + destruct (negb (StatusCode res =? 200)%Z).
      * unfold Body_Close. rewrite bind_run. reflexivity.
      * rewrite bind_run. destruct (Body_Read _ _ _) as [[data [err|]] s3]; cbn [fst snd].
        -- destruct (negb (errors.Is_EOF err)); unfold Body_Close; rewrite bind_run;
             reflexivity.
        -- unfold Body_Close. rewrite bind_run. reflexivity.
    + destruct (errors.As_UnknownAuthorityError err); reflexivity.
Qed.

(** X10.  On a first call with the capability flag set and an ASCII
    hostname, the hostname ends as [doh3.dns.nextdns.io] exactly when it
    was [dns.nextdns.io] up to the case of its letters, or was
    [doh3.dns.nextdns.io] already; with the flag unset it is never
    changed. *)
Theorem RoundTrip_rewrite_iff e req s :
  once e = zeroOnce -> transport e = None -> isASCII (Hostname e) = true ->
  let e1 := (RoundTrip e req s).1.2 in
  (DoH3Supported e = true ->
   (Hostname e1 = "doh3.dns.nextdns.io"
    <-> lowerBytes (Hostname e) = lowerBytes "dns.nextdns.io"
        \/ Hostname e = "doh3.dns.nextdns.io"))
  /\ (DoH3Supported e = false -> Hostname e1 = Hostname e).
Proof.
  intros Ho Ht Hascii e1. subst e1. split; intros Hd.
  - rewrite (RoundTrip_first_H3 e req s Ho Ht Hd). simpl.
    rewrite <- (strings_EqualFold_ASCII (Hostname e) Hascii).
    destruct (strings_EqualFold (Hostname e) "dns.nextdns.io"); split; auto.
    intros [Habs | Hh]; [discriminate | exact Hh].
  - rewrite (RoundTrip_first_H2 e req s Ho Ht Hd). reflexivity.
Qed.

End ResolverMore.

(** ** More on the goroutines *)

Section GoroutinesMore.
Context `{Runtime}.

Lemma step_frame c c' :
  step c c' ->
  Path (ep c') = Path (ep c) /\ Bootstrap (ep c') = Bootstrap (ep c)
  /\ ALPN (ep c') = ALPN (ep c) /\ DoH3Supported (ep c') = DoH3Supported (ep c)
  /\ FastestIP (ep c') = FastestIP (ep c)
  /\ (Hostname (ep c') = Hostname (ep c) \/ Hostname (ep c') = "doh3.dns.nextdns.io")
  /\ length (pool c') = length (pool c).
Proof.
  intros [c0 i pc pc' e' evs Hi Hstep]. simpl. rewrite length_insert.
  destruct pc; simpl in Hstep; try discriminate;
    try (destruct (m (once (ep c0))); [discriminate|]);
    injection Hstep as <- <- <-;
    try destruct (strings_EqualFold _ _); simpl; auto 10.
Qed.

Lemma steps_frame c c' :
  rtc step c c' ->
  Path (ep c') = Path (ep c) /\ Bootstrap (ep c') = Bootstrap (ep c)
  /\ ALPN (ep c') = ALPN (ep c) /\ DoH3Supported (ep c') = DoH3Supported (ep c)
  /\ FastestIP (ep c') = FastestIP (ep c)
  /\ (Hostname (ep c') = Hostname (ep c) \/ Hostname (ep c') = "doh3.dns.nextdns.io")
  /\ length (pool c') = length (pool c).
Proof.
  induction 1 as [c | c c1 c2 Hs _ IH]; [auto 10|].
  destruct (step_frame _ _ Hs) as (? & ? & ? & ? & ? & Hh & ?).
  destruct IH as (? & ? & ? & ? & ? & Hh2 & ?).
  repeat split; try congruence.
  destruct Hh2 as [Hh2|Hh2]; [|auto]. rewrite Hh2. exact Hh.
Qed.

(** X11.  Whatever the interleaving of the goroutines in [RoundTrip], the
    path, the bootstrap list, the ALPN list, the capability flag and the
    preferred address of the shared endpoint are never written, and the
    hostname is the original one or [doh3.dns.nextdns.io]; the ordered
    address list is therefore the same for every goroutine. *)
Theorem goroutines_frame e0 n c :
  rtc step (enter e0 n) c ->
  Path (ep c) = Path e0 /\ Bootstrap (ep c) = Bootstrap e0 /\ ALPN (ep c) = ALPN e0
  /\ DoH3Supported (ep c) = DoH3Supported e0 /\ FastestIP (ep c) = FastestIP e0
  /\ (Hostname (ep c) = Hostname e0 \/ Hostname (ep c) = "doh3.dns.nextdns.io")
  /\ endpointAddrs (ep c) = endpointAddrs e0
  /\ length (pool c) = n.
Proof.
  intros Hrun.
  assert (Hfields :
    Path (ep c) = Path e0 /\ Bootstrap (ep c) = Bootstrap e0 /\ ALPN (ep c) = ALPN e0
    /\ DoH3Supported (ep c) = DoH3Supported e0 /\ FastestIP (ep c) = FastestIP e0
    /\ (Hostname (ep c) = Hostname e0 \/ Hostname (ep c) = "doh3.dns.nextdns.io")
    /\ length (pool c) = n).
  { destruct (steps_frame _ _ Hrun) as (? & ? & ? & ? & ? & ? & Hlen).
    simpl in Hlen. rewrite length_replicate in Hlen. auto 10. }
  destruct Hfields as (Hp & Hb & Ha & Hd & Hf & Hh & Hn).
  repeat (split; [assumption|]). split; [|exact Hn].
  unfold endpointAddrs. now rewrite Hb, Hf.
Qed.

End GoroutinesMore.

(** ** More on the exchanger *)

Section ExchangerMore.
Context `{Runtime}.
Implicit Types (e : DOHEndpoint Transport) (s : Sys).

Lemma reads_app (l1 l2 : list Event) : reads (l1 ++ l2) = reads l1 ++ reads l2.
Proof. apply omap_app. Qed.

(** The text of the error [Exchange] returns for a transport error. *)
Lemma Exchange_on_error e ctx payload buf s req err resp e1 s1 :
  exchangeRequest e ctx payload = Some req ->
  RoundTrip e req s = ((Some (RTError err resp), e1), s1) ->
  Exchange e ctx payload buf s
  = ((Some (mkExchangeResult 0
              (Some (errorString
                       match errors.As_UnknownAuthorityError err with
                       | Some cert =>
                           "roundtrip: " +:+ errors.Error err
                           +:+ " (subject=" +:+ Subject cert
                           +:+ ", issuer=" +:+ Issuer cert +:+ ")"
                       | None => "roundtrip: " +:+ errors.Error err
                       end))
              buf), e1), s1).
Proof.
  intros Hreq Hrt. Exchange_built Hreq.
  rewrite bind_run, Hrt. cbn [fst snd].
  destruct (errors.As_UnknownAuthorityError err); reflexivity.
Qed.

(** What [Exchange] does once its round trip has come back with a
    response. *)
Lemma Exchange_on_response e ctx payload buf s req res e1 s1 :
  exchangeRequest e ctx payload = Some req ->
  RoundTrip e req s = ((Some (RTResponse res), e1), s1) ->
  exists r w evs,
    Exchange e ctx payload buf s = ((Some r, e1), mkSys w (trace s1 ++ evs))
    /\ closed evs = [Body res]
    /\ last evs = Some (EvClose (Body res))
    /\ reads evs = (if (StatusCode res =? 200)%Z then [Body res] else [])
    /\ roundTrips evs = [] /\ constructed evs = [] /\ dialed evs = []
    /\ ((StatusCode res =? 200)%Z = false -> ex_n r = 0%Z /\ ex_buf r = buf).
Proof.
  intros Hreq Hrt. Exchange_built Hreq.
  rewrite bind_run, Hrt. cbn [fst snd].
  destruct (StatusCode res =? 200)%Z eqn:Hcode; cbn [negb].
  - unfold Body_Read, Body_Close, call. rewrite !bind_run, emit_run.
    cbn [fst snd world trace].
    destruct (body_Read (Body res) (length buf) (world s1)) as [[data err] w] eqn:Hread.
    cbn [fst snd].
    destruct err as [err'|]; [destruct (errors.Is_EOF err')|]; cbn [negb];
      rewrite bind_run, emit_run; cbn [fst snd world trace];
      eexists _, w, [EvRead (Body res); EvClose (Body res)];
      (split; [rewrite <- app_assoc; reflexivity|]);
      cbn [ex_n ex_buf]; repeat split; try reflexivity; intros; discriminate.
  - unfold Body_Close. rewrite bind_run, emit_run. cbn [fst snd world trace].
    eexists _, (world s1), [EvClose (Body res)]. split; [reflexivity|].
    cbn [ex_n ex_buf]. repeat split; reflexivity.
Qed.

(** X12.  When the round trip of the request [Exchange] built comes
    back with an error, [Exchange] returns [n = 0] and an error whose
    text is [roundtrip: ] followed by the transport's error, with
    the subject and the issuer of the certificate added when the error is
    an unknown-authority error; the buffer is untouched, and nothing is
    read or closed. *)
Theorem Exchange_transport_error e ctx payload buf s req err resp e1 s1 :
  exchangeRequest e ctx payload = Some req ->
  RoundTrip e req s = ((Some (RTError err resp), e1), s1) ->
  exists text,
    Exchange e ctx payload buf s
    = ((Some (mkExchangeResult 0 (Some (errorString text)) buf), e1), s1)
    /\ String.prefix ("roundtrip: " +:+ errors.Error err) text = true
    /\ (forall cert, errors.As_UnknownAuthorityError err = Some cert ->
          text = "roundtrip: " +:+ errors.Error err +:+ " (subject=" +:+ Subject cert
                 +:+ ", issuer=" +:+ Issuer cert +:+ ")")
    /\ (errors.As_UnknownAuthorityError err = None ->
        text = "roundtrip: " +:+ errors.Error err).
Proof.
  intros Hreq Hrt.
  rewrite (Exchange_on_error e ctx payload buf s req err resp e1 s1 Hreq Hrt).
  assert (Hpre : forall a b : string, String.prefix a (a +:+ b) = true).
  { intros a b. induction a as [|c a IH]; [now destruct b|].
    change (String c a +:+ b) with (String c (a +:+ b)). cbn [String.prefix].
    destruct (Ascii.ascii_dec c c); [exact IH | contradiction]. }
  assert (Hpre' : forall a : string, String.prefix a a = true).
  { intros a. induction a as [|c a IH]; [reflexivity|]. cbn [String.prefix].
    destruct (Ascii.ascii_dec c c); [exact IH | contradiction]. }
  assert (Hassoc : forall a b c : string, a +:+ (b +:+ c) = (a +:+ b) +:+ c).
  { intros a b c. induction a as [|x a IH]; [reflexivity|].
    change (String x a +:+ (b +:+ c)) with (String x (a +:+ (b +:+ c))).
    rewrite IH. reflexivity. }
  destruct (errors.As_UnknownAuthorityError err) as [cert|]; eexists;
    (split; [reflexivity|]); split.
  - rewrite (Hassoc "roundtrip: "). apply Hpre.
  - split; [intros cert' [= <-]; reflexivity | discriminate].
  - apply Hpre'.
  - split; [discriminate | reflexivity].
Qed.

(** X14.  When the round trip of the request [Exchange] built has come
    back with a response, [Exchange] closes its body exactly once, as the
    last thing it does, on every path; it reads the body once when the
    status is 200 and not at all otherwise; and it makes no further round
    trip. *)
Theorem Exchange_closes_body e ctx payload buf s req res e1 s1 :
  exchangeRequest e ctx payload = Some req ->
  RoundTrip e req s = ((Some (RTResponse res), e1), s1) ->
  exists evs,
    trace (Exchange e ctx payload buf s).2 = trace s1 ++ evs
    /\ closed evs = [Body res]
    /\ last evs = Some (EvClose (Body res))
    /\ reads evs = (if (StatusCode res =? 200)%Z then [Body res] else [])
    /\ roundTrips evs = [] /\ constructed evs = [].
Proof.
  intros Hreq Hrt.
  destruct (Exchange_on_response e ctx payload buf s req res e1 s1 Hreq Hrt)
    as (r & w & evs & Heq & Hc & Hl & Hr & Hrts & Hb & _).
  exists evs. rewrite Heq. auto 10.
Qed.

(** [RoundTrip] returns whenever the mutex of the [Once] is free and a
    set [done] comes with a handle. *)
Lemma RoundTrip_returns e req s :
  m (once e) = false -> (done (once e) = true -> is_Some (transport e)) ->
  exists r e1 w t evs,
    RoundTrip e req s = ((Some r, e1), mkSys w (trace s ++ evs ++ [EvRoundTrip t req]))
    /\ roundTrips evs = [] /\ length (constructed evs) <= 1
    /\ closed evs = [] /\ reads evs = [] /\ dialed evs = [].
Proof.
  intros Hm Hd. unfold RoundTrip, Once_Do, initTransport.
  destruct e as [h p b a d3 f [d mm] tr]; cbn [once done m transport DoH3Supported] in *.
  subst mm. destruct d.
  - destruct (Hd eq_refl) as [t ->]. unfold bind, roundTrip, call, bind, emit, ret.
    cbn -[endpointAddrs strings_EqualFold].
    destruct (transport_RoundTrip _ _ _) as [r w].
    eexists r, _, w, t, []. split; [reflexivity|]. simpl. repeat split; lia.
  - destruct tr as [t|]; [|destruct d3; [destruct (strings_EqualFold _ _)|]];
      unfold bind, roundTrip, mkTransportH3, mkTransportH2, call, bind, emit, ret;
      cbn -[endpointAddrs strings_EqualFold];
      destruct (transport_RoundTrip _ _ _) as [r w].
    + eexists r, _, w, t, []. split; [reflexivity|]. simpl. repeat split; lia.
    + eexists r, _, w, _, [_]. split; [rewrite <- app_assoc; reflexivity|].
      simpl. repeat split; lia.
    + eexists r, _, w, _, [_]. split; [rewrite <- app_assoc; reflexivity|].
      simpl. repeat split; lia.
    + eexists r, _, w, _, [_]. split; [rewrite <- app_assoc; reflexivity|].
      simpl. repeat split; lia.
Qed.

(** X15.  When the request has been built, the mutex of the [Once] is
    free and a set [done] comes with a handle, [Exchange] returns a
    result after exactly one round trip and at most one construction.
    The request of that round trip is a POST to [https://nowhere]
    followed by the endpoint's path, with the payload as body, the
    DNS-message content type as only header, and the caller's context. *)
Theorem Exchange_one_round_trip e ctx payload buf s req :
  exchangeRequest e ctx payload = Some req ->
  m (once e) = false -> (done (once e) = true -> is_Some (transport e)) ->
  exists r t evs,
    (Exchange e ctx payload buf s).1.1 = Some r
    /\ trace (Exchange e ctx payload buf s).2 = trace s ++ evs
    /\ roundTrips evs = [(t, req)]
    /\ length (constructed evs) <= 1
    /\ req = mkRequest "POST" ("https://nowhere" +:+ Path e)
                [("Content-Type", ["application/dns-message"])] (Some payload) ctx.
Proof.
  intros Hreq Hm Hd.
  assert (Hshape : req = mkRequest "POST" ("https://nowhere" +:+ Path e)
                           [("Content-Type", ["application/dns-message"])]
                           (Some payload) ctx)
    by (now apply exchangeRequest_built in Hreq).
  destruct (RoundTrip_returns e req s Hm Hd)
    as (rt & e1 & w & t & evs0 & Hrt & Hr0 & Hc0 & _).
  destruct rt as [res | err resp].
  - destruct (Exchange_on_response e ctx payload buf s req res e1 _ Hreq Hrt)
      as (r & w' & evs & Heq & _ & _ & _ & Hrts & Hb & _).
    exists r, t, ((evs0 ++ [EvRoundTrip t req]) ++ evs).
    rewrite Heq. cbn [fst snd trace].
    split; [reflexivity|]. split; [now rewrite !app_assoc|].
    rewrite !roundTrips_app, !constructed_app, Hr0, Hrts, Hb.
    split; [reflexivity|]. split; [simpl; rewrite !app_nil_r; exact Hc0 | exact Hshape].
  - rewrite (Exchange_on_error e ctx payload buf s req err resp e1 _ Hreq Hrt).
    eexists _, t, (evs0 ++ [EvRoundTrip t req]).
    cbn [fst snd trace]. split; [reflexivity|]. split; [reflexivity|].
    rewrite !roundTrips_app, !constructed_app, Hr0.
    split; [reflexivity|]. split; [simpl; rewrite !app_nil_r; exact Hc0 | exact Hshape].
Qed.

End ExchangerMore.

(** ** The probes on any network *)

Section ProberMore.
Context `{Runtime}.
Implicit Types (s : Sys) (ips : list string).

Lemma dialConfs_app (l1 l2 : list Event) :
  dialConfs (l1 ++ l2) = dialConfs l1 ++ dialConfs l2.
Proof. apply omap_app. Qed.

(** The loop of [probeDoH3] on any list and any network: it dials the
    first [k] addresses, and either the last of these dials succeeded, or
    all addresses were dialled and all dials failed. *)
Lemma probeDoH3_loop_run ctx endpoint ips lastErr s :
  exists r evs k rs w',
    probeDoH3_loop ctx endpoint ips lastErr s = (r, mkSys w' (trace s ++ evs))
    /\ k <= length ips
    /\ dialEach ctx (probeConf endpoint) (probeAddr <$> take k ips) (world s) = (rs, w')
    /\ dialed evs = probeAddr <$> take k ips
    /\ dialConfs evs = replicate k (probeConf endpoint)
    /\ roundTrips evs = [] /\ closed evs = [] /\ constructed evs = [] /\ reads evs = []
    /\ ((r = None /\ last rs = Some None)
        \/ (r = lastOf rs lastErr /\ k = length ips /\ Forall is_Some rs)).
Proof.
  revert lastErr s. induction ips as [|ip ips IH]; intros lastErr s.
  - exists lastErr, [], 0, [], (world s). simpl. rewrite app_nil_r.
    split; [now destruct s|]. repeat split; auto; right; repeat split; auto.
  - destruct (quic_DialAddrEarly ctx (probeAddr ip) (probeConf endpoint) (world s))
      as [[err|] w] eqn:Hdial.
    + rewrite (probeDoH3_loop_failure _ _ _ _ _ _ _ _ Hdial).
      match goal with |- context [probeDoH3_loop _ _ ips (Some err) ?s1] =>
        destruct (IH (Some err) s1)
          as (r & evs & k & rs & w' & Hrun & Hk & Hde & Hd & Hc & Hrt & Hcl & Hb & Hrd & Hres)
      end.
      cbn [world trace] in Hrun, Hde.
      eexists r, (_ ++ evs), (S k), (Some err :: rs), w'.
      split; [rewrite Hrun, <- app_assoc; reflexivity|].
      split; [simpl; lia|].
      split.
      { change (take (S k) (ip :: ips)) with (ip :: take k ips).
        rewrite fmap_cons. cbn [dialEach]. now rewrite Hdial, Hde. }
      rewrite dialed_app, dialConfs_app, roundTrips_app, closed_app, constructed_app,
        reads_app, Hd, Hc, Hrt, Hcl, Hb, Hrd.
      repeat (split; [reflexivity|]).
      destruct Hres as [[-> Hlast] | (-> & -> & Hall)].
      * left. split; [reflexivity|]. rewrite last_cons, Hlast. reflexivity.
      * right. split; [now rewrite lastOf_cons|]. split; [reflexivity|].
        constructor; [eauto | exact Hall].
    + rewrite (probeDoH3_loop_success _ _ _ _ _ _ _ Hdial).
      eexists None, _, 1, [None], w. split; [reflexivity|].
      split; [simpl; lia|].
      split; [cbn [take fmap list_fmap dialEach]; now rewrite Hdial|].
      repeat (split; [reflexivity|]). left. auto.
Qed.

(** X16.  On any network [probeDoH3] dials a prefix of the bootstrap list,
    in order and once per address, always offering [h3] alone with the
    endpoint's hostname as server name, and does nothing else on the
    network.  It returns nil exactly when the last dial it made succeeded;
    otherwise every address was dialled, every dial failed, and an error
    is returned. *)
Theorem probeDoH3_dials_prefix ctx endpoint ips s :
  exists r evs k rs w',
    probeDoH3 ctx endpoint ips s = (r, mkSys w' (trace s ++ evs))
    /\ k <= length ips
    /\ dialEach ctx (probeConf endpoint) (probeAddr <$> take k ips) (world s) = (rs, w')
    /\ dialed evs = probeAddr <$> take k ips
    /\ dialConfs evs
       = replicate k {| ServerName := endpoint; NextProtos := ["h3"] |}
    /\ roundTrips evs = [] /\ closed evs = [] /\ constructed evs = [] /\ reads evs = []
    /\ ((r = None /\ last rs = Some None)
        \/ (is_Some r /\ k = length ips /\ Forall is_Some rs)).
Proof.
  destruct ips as [|ip ips].
  - eexists (Some DeadlineExceeded), [_], 0, [], (world s).
    split; [reflexivity|]. simpl. repeat split; auto; right; repeat split; eauto.
  - destruct (probeDoH3_loop_run ctx endpoint (ip :: ips) None s)
      as (r & evs & k & rs & w' & Hrun & Hk & Hde & Hd & Hc & Hrt & Hcl & Hb & Hrd & Hres).
    exists r, evs, k, rs, w'. split; [exact Hrun|].
    repeat (split; [assumption|]).
    destruct Hres as [Hok | (-> & -> & Hall)]; [left; exact Hok | right].
    split; [|auto].
    simpl in Hde. destruct (quic_DialAddrEarly _ _ _ _) as [r0 w0].
    destruct (dialEach _ _ _ w0) as [rs0 w1]. injection Hde as <- _.
    inversion Hall as [|? ? Hr0 Hrest]; subst. rewrite lastOf_cons.
    unfold lastOf. destruct (last rs0) as [x|] eqn:Hl; simpl; [|exact Hr0].
    apply last_Some_elem_of in Hl. rewrite Forall_forall in Hrest. now apply Hrest.
Qed.

Lemma roundTripEach_length (calls : list (Transport * Request Ctx)) (w : World) :
  length (roundTripEach calls w).1 = length calls.
Proof.
  revert w. induction calls as [|[t req] calls IH]; intros w; [reflexivity|].
  simpl. destruct (transport_RoundTrip t req w) as [r w1]. specialize (IH w1).
  destruct (roundTripEach calls w1). simpl in *. now rewrite IH.
Qed.

(** The loop of [probeDoH3Request] on any list and any network, when the
    request can be built. *)
Lemma probeDoH3Request_loop_run ctx endpoint req ips s :
  probeRequest ctx endpoint = Some req ->
  exists r evs k rs w',
    probeDoH3Request_loop ctx endpoint ips s = (Some r, mkSys w' (trace s ++ evs))
    /\ k <= length ips
    /\ roundTripEach (probeCall endpoint req <$> take k ips) (world s) = (rs, w')
    /\ roundTrips evs = probeCall endpoint req <$> take k ips
    /\ constructed evs = (fun ip => newTransportH3 (hostOnly endpoint) [ip]) <$> take k ips
    /\ closed evs = Body <$> omap responseOf rs
    /\ dialed evs = [] /\ reads evs = []
    /\ ((r = None /\ exists r0, last rs = Some r0 /\ is200 r0 = true)
        \/ (r = Some DeadlineExceeded /\ k = length ips
            /\ Forall (fun r0 => is200 r0 = false) rs)).
Proof.
  intros Hreq. revert s. induction ips as [|ip ips IH]; intros s.
  - exists (Some DeadlineExceeded), [], 0, [], (world s). simpl. rewrite app_nil_r.
    split; [now destruct s|]. repeat split; auto; right; repeat split; auto.
  - destruct (transport_RoundTrip (probeCall endpoint req ip).1
                (probeCall endpoint req ip).2 (world s)) as [r0 w] eqn:Hrt.
    rewrite (probeDoH3Request_loop_turn _ _ req _ _ _ r0 w Hreq Hrt). cbv zeta.
    assert (Hev : forall evs0,
      evs0 = [EvNewTransportH3 (hostOnly endpoint) [ip];
              EvRoundTrip (probeCall endpoint req ip).1 (probeCall endpoint req ip).2]
             ++ (EvClose <$> option_list (Body <$> responseOf r0)) ->
      roundTrips evs0 = [probeCall endpoint req ip]
      /\ constructed evs0 = [newTransportH3 (hostOnly endpoint) [ip]]
      /\ closed evs0 = option_list (Body <$> responseOf r0)
      /\ dialed evs0 = [] /\ reads evs0 = []).
    { intros evs0 ->. unfold probeCall.
      destruct r0 as [resp | err [resp|]]; simpl; auto. }
    destruct (Hev _ eq_refl) as (Hrt1 & Hb1 & Hcl1 & Hd1 & Hrd1).
    destruct (is200 r0) eqn:H200.
    + eexists None, _, 1, [r0], w. split; [reflexivity|].
      split; [simpl; lia|].
      split.
      { cbn [take fmap list_fmap roundTripEach].
        unfold probeCall in Hrt |- *. cbn [fst snd] in Hrt.
        now rewrite Hrt. }
      rewrite Hrt1, Hb1, Hcl1, Hd1, Hrd1.
      repeat split; try reflexivity.
      * simpl. now destruct (responseOf r0).
      * left. split; [reflexivity|]. exists r0. auto.
    + match goal with |- context [probeDoH3Request_loop _ _ ips ?s1] =>
        destruct (IH s1)
          as (r & evs & k & rs & w' & Hrun & Hk & Hre & Hrts & Hb & Hcl & Hd & Hrd & Hres)
      end.
      cbn [world trace] in Hrun, Hre.
      eexists r, (_ ++ evs), (S k), (r0 :: rs), w'.
      split; [rewrite Hrun, <- app_assoc; reflexivity|].
      split; [simpl; lia|].
      split.
      { change (take (S k) (ip :: ips)) with (ip :: take k ips).
        rewrite fmap_cons. cbn [roundTripEach].
        unfold probeCall at 1. unfold probeCall in Hrt. cbn [fst snd] in Hrt.
        now rewrite Hrt, Hre. }
      rewrite roundTrips_app, constructed_app, closed_app, dialed_app, reads_app.
      rewrite Hrt1, Hb1, Hcl1, Hd1, Hrd1, Hrts, Hb, Hcl, Hd, Hrd.
      repeat split; try reflexivity.
      * simpl. now destruct (responseOf r0).
      * destruct Hres as [[-> (r1 & Hl & H1)] | (-> & -> & Hall)].
        -- left. split; [reflexivity|]. exists r1. split; [|exact H1].
           rewrite last_cons, Hl. reflexivity.
        -- right. repeat split; auto.
Qed.

(** X17.  On any network, when its request can be built,
    [probeDoH3Request] sends it to a prefix of the bootstrap list, in
    order, each time through a transport built for that address alone,
    and closes the body of every response it receives, whatever its
    status.  It returns nil exactly when the last round trip gave a 200;
    otherwise every address was tried and the error is
    [DeadlineExceeded], whatever the transports reported.  It never dials
    and never reads a body.  When the request cannot be built, the call
    on a non-empty list builds the transport of the first address,
    dereferences the nil request and does not return; on the empty list
    it returns [DeadlineExceeded] as before. *)
Theorem probeDoH3Request_closes_all ctx endpoint ips s :
  (forall req,
      probeRequest ctx endpoint = Some req ->
      exists r evs k rs w',
        probeDoH3Request ctx endpoint ips s = (Some r, mkSys w' (trace s ++ evs))
        /\ k <= length ips
        /\ roundTripEach (probeCall endpoint req <$> take k ips) (world s) = (rs, w')
        /\ roundTrips evs = probeCall endpoint req <$> take k ips
        /\ constructed evs
           = (fun ip => newTransportH3 (hostOnly endpoint) [ip]) <$> take k ips
        /\ closed evs = Body <$> omap responseOf rs
        /\ dialed evs = [] /\ reads evs = []
        /\ ((r = None /\ exists r0, last rs = Some r0 /\ is200 r0 = true)
            \/ (r = Some DeadlineExceeded /\ k = length ips
                /\ Forall (fun r0 => is200 r0 = false) rs)))
  /\ (probeRequest ctx endpoint = None ->
      probeDoH3Request ctx endpoint ips s
      = match ips with
        | [] => (Some (Some DeadlineExceeded), s)
        | ip :: _ =>
            (None, mkSys (world s)
                         (trace s ++ [EvNewTransportH3 (hostOnly endpoint) [ip]]))
        end).
Proof.
  rewrite probeDoH3Request_eq_loop. split.
  - intros req Hreq. now apply probeDoH3Request_loop_run.
  - intros Hreq. destruct ips as [|ip rest]; [reflexivity|].
    now apply probeDoH3Request_loop_unbuilt.
Qed.

End ProberMore.

(** ** [SupportsDoH3] on any network *)

Section SupportsMore.
Context `{Runtime}.
Implicit Types (s : Sys) (ips : list string).

Lemma omap_length_le {A B} (f : A -> option B) (l : list A) :
  length (omap f l) <= length l.
Proof.
  induction l as [|a l IH]; [reflexivity|].
  change (omap f (a :: l))
    with (match f a with Some y => y :: omap f l | None => omap f l end).
  destruct (f a); simpl; lia.
Qed.

Lemma lastOf_failures (r : option error) (rs : list (option error)) :
  Forall is_Some (r :: rs) -> is_Some (lastOf (r :: rs) None).
Proof.
  intros Hall. inversion Hall as [|? ? Hr Hrest]; subst. rewrite lastOf_cons.
  unfold lastOf. destruct (last rs) as [x|] eqn:Hl; simpl; [|exact Hr].
  apply last_Some_elem_of in Hl. rewrite Forall_forall in Hrest. now apply Hrest.
Qed.

(** X18.  On any network [SupportsDoH3] makes at most one dial and at
    most one request per bootstrap address, builds a transport for every
    request and at most one more, closes no more bodies than it sent
    requests and reads none.  A transport is built only after every
    address has been dialled.  When the request of the probe can be
    built, the call returns, it has built exactly one transport per
    request, and the requests went to a prefix of the list.  The answer
    is false only after every address has been dialled and has been sent
    a request.  The call does not return only when the request cannot be
    built: every address has then been dialled, one transport has been
    built and no request was sent. *)
Theorem SupportsDoH3_attempts endpoint ips alpnList s :
  exists r evs w',
    SupportsDoH3 endpoint ips alpnList s = (r, mkSys w' (trace s ++ evs))
    /\ length (dialed evs) <= length ips
    /\ length (roundTrips evs) <= length ips
    /\ length (closed evs) <= length (roundTrips evs)
    /\ length (roundTrips evs) <= length (constructed evs) <= S (length (roundTrips evs))
    /\ reads evs = []
    /\ (constructed evs <> [] -> dialed evs = probeAddr <$> ips)
    /\ (forall req,
          probeRequest probeCtx endpoint = Some req ->
          is_Some r /\ length (constructed evs) = length (roundTrips evs)
          /\ exists k, roundTrips evs = probeCall endpoint req <$> take k ips)
    /\ (r = Some false ->
        dialed evs = probeAddr <$> ips /\ length (roundTrips evs) = length ips)
    /\ (r = None ->
        probeRequest probeCtx endpoint = None
        /\ dialed evs = probeAddr <$> ips
        /\ roundTrips evs = [] /\ length (constructed evs) = 1).
Proof.
  destruct ips as [|ip ips].
  - eexists (Some false), [_; _], (world s). split.
    + unfold SupportsDoH3, probeDoH3, probeDoH3Request, bind, log_Printf, emit, ret.
      simpl. rewrite <- app_assoc. reflexivity.
    + simpl. split; [lia|]. split; [lia|]. split; [lia|]. split; [lia|].
      split; [reflexivity|]. split; [contradiction|].
      split; [intros req _; split; [eauto|]; split; [reflexivity | now exists 0]|].
      split; [auto | discriminate].
  - destruct (probeDoH3_loop_run probeCtx endpoint (ip :: ips) None s)
      as (r & evsA & k & rs & wA & HA & Hk & Hde & Hd & _ & Hrt & Hcl & Hb & Hrd & Hres).
    assert (HA' : probeDoH3 probeCtx endpoint (ip :: ips) s
                  = (r, mkSys wA (trace s ++ evsA))) by exact HA.
    destruct Hres as [[-> _] | (Hr & -> & Hall)].
    + exists (Some true), evsA, wA.
      split; [exact (SupportsDoH3_success_A _ _ _ _ _ HA')|].
      rewrite Hd, Hrt, Hcl, Hb, Hrd, length_fmap, length_take. cbn [length].
      split; [lia|]. split; [lia|]. split; [lia|]. split; [lia|].
      split; [reflexivity|]. split; [contradiction|].
      split; [intros req _; split; [eauto|]; split; [reflexivity | now exists 0]|].
      split; discriminate.
    + assert (Hsome : is_Some r).
      { rewrite Hr. cbn [take length] in Hde. rewrite firstn_all in Hde.
        simpl in Hde. destruct (quic_DialAddrEarly _ _ _ _) as [r0 w0].
        destruct (dialEach _ _ _ w0) as [rs0 w1]. injection Hde as <- _.
        now apply lastOf_failures. }
      destruct Hsome as [err ->].
      rewrite (SupportsDoH3_after_A _ _ alpnList _ _ _ HA'). cbv zeta.
      cbn [world trace].
      set (line := EvLog ("[DoH3] QUIC probe failed for endpoint=" +:+ endpoint
                          +:+ ", trying real DoH3 request")) in *.
      rewrite firstn_all in Hd.
      destruct (probeRequest probeCtx endpoint) as [req|] eqn:Hreq.
      * match goal with |- context [probeDoH3Request_loop _ _ _ ?s1] =>
          destruct (probeDoH3Request_loop_run probeCtx endpoint req (ip :: ips) s1 Hreq)
            as (rB & evsB & kB & rsB & wB & HB & HkB & Hre & HrtB & HbB & HclB & HdB
                & HrdB & HresB)
        end.
        cbn [world trace] in HB, Hre. rewrite HB. cbn [fst snd].
        exists (match rB with None => Some true | Some _ => Some false end),
               (evsA ++ [line] ++ evsB), wB.
        split; [now rewrite <- !app_assoc|].
        rewrite !dialed_app, !roundTrips_app, !closed_app, !constructed_app, !reads_app.
        rewrite Hd, Hrt, Hcl, Hb, Hrd, HrtB, HbB, HclB, HdB, HrdB.
        subst line.
        cbn [dialed roundTrips closed constructed reads omap list_omap app builtBy].
        rewrite !app_nil_r.
        assert (Hlen : length rsB = length (take kB (ip :: ips))).
        { pose proof (roundTripEach_length
                        (probeCall endpoint req <$> take kB (ip :: ips)) wA) as Hl.
          rewrite Hre in Hl. simpl in Hl. now rewrite length_fmap in Hl. }
        pose proof (omap_length_le responseOf rsB) as Hresp.
        rewrite !length_fmap. rewrite Hlen in Hresp.
        split; [reflexivity|]. split; [rewrite length_take; lia|].
        split; [exact Hresp|]. split; [lia|].
        split; [reflexivity|]. split; [reflexivity|].
        split.
        { intros req' [= <-]. split; [destruct rB; eauto|].
          split; [reflexivity | now exists kB]. }
        split.
        { intros Hfalse. split; [reflexivity|].
          destruct HresB as [[-> _] | (_ & -> & _)]; [discriminate|].
          now rewrite firstn_all. }
        destruct rB; discriminate.
      * rewrite (probeDoH3Request_loop_unbuilt _ _ _ _ _ Hreq). cbn [fst snd world trace].
        exists None, (evsA ++ [line; EvNewTransportH3 (hostOnly endpoint) [ip]]), wA.
        split; [now rewrite <- !app_assoc|].
        rewrite !dialed_app, !roundTrips_app, !closed_app, !constructed_app, !reads_app.
        rewrite Hd, Hrt, Hcl, Hb, Hrd. subst line.
        cbn [dialed roundTrips closed constructed reads omap list_omap app builtBy].
        rewrite !app_nil_r, length_fmap. cbn [length].
        split; [lia|]. split; [lia|]. split; [lia|]. split; [lia|].
        split; [reflexivity|]. split; [reflexivity|].
        split; [discriminate|]. split; [discriminate|]. auto.
Qed.

End SupportsMore.

(** * The theorems at work on the small network *)

Lemma endpointAddrs_preferred_first_witness :
  endpointAddrs Demo.nextdns
  = ["45.90.30.0:443"; "45.90.28.0:443"; "2a07:a8c0::1"]
  /\ exists rest,
      endpointAddrs Demo.nextdns = withPort "45.90.30.0" :: rest
      /\ rest = filter (fun a => a <> withPort "45.90.30.0")
                       (withPort <$> Bootstrap Demo.nextdns)
      /\ (withPort "45.90.30.0" ∉ rest)
      /\ sublist rest (withPort <$> Bootstrap Demo.nextdns)
      /\ (forall a, a ∈ withPort <$> Bootstrap Demo.nextdns ->
                    a <> withPort "45.90.30.0" -> a ∈ rest)
      /\ (withPort "45.90.30.0" ∉ withPort <$> Bootstrap Demo.nextdns ->
          endpointAddrs Demo.nextdns
          = withPort "45.90.30.0" :: (withPort <$> Bootstrap Demo.nextdns)).
Proof.
  split; [vm_compute; reflexivity|].
  apply (endpointAddrs_preferred_first Demo.nextdns). simpl. discriminate.
Defined.

Lemma probeDoH3_short_circuit_witness :
  exists evs,
    @probeDoH3 Demo.runtime 0%Z "dns.nextdns.io" (["1.1.1.1"] ++ "2.2.2.2" :: ["3.3.3.3"])
               (Demo.start Demo.secondUp)
    = (None, Demo.sys (Demo.tick (Demo.tick Demo.secondUp))
                      (trace (Demo.start Demo.secondUp) ++ evs))
    /\ dialed evs = probeAddr <$> (["1.1.1.1"] ++ ["2.2.2.2"])
    /\ length (dialed evs) = 2
    /\ roundTrips evs = [].
Proof.
  apply (@probeDoH3_short_circuit Demo.runtime 0%Z "dns.nextdns.io" ["1.1.1.1"]
           "2.2.2.2" ["3.3.3.3"] (Demo.start Demo.secondUp) [Demo.timedOut]
           (Demo.tick Demo.secondUp) (Demo.tick (Demo.tick Demo.secondUp))).
  - vm_compute. reflexivity.
  - constructor; [eexists; reflexivity | constructor].
  - vm_compute. reflexivity.
Defined.

Lemma SupportsDoH3_falls_back_witness :
  exists evs,
    @SupportsDoH3 Demo.runtime "dns.nextdns.io" Demo.ips3 ["h2"]
                  (Demo.start Demo.secondServes)
    = (Some true,
       Demo.sys (Demo.tick (Demo.tick (Demo.tick (Demo.tick (Demo.tick Demo.secondServes)))))
                (trace (Demo.start Demo.secondServes) ++ evs))
    /\ roundTrips evs
       = @probeCall Demo.runtime "dns.nextdns.io" Demo.probe
           <$> (["1.1.1.1"] ++ ["2.2.2.2"])
    /\ closed evs = [[Byte.x00; Byte.x01]] ++ [[Byte.x00; Byte.x01]]
    /\ last evs = Some (@EvClose Demo.runtime [Byte.x00; Byte.x01]).
Proof.
  pose proof (@SupportsDoH3_falls_back Demo.runtime "dns.nextdns.io" Demo.ips3 ["h2"]
                (Demo.start Demo.secondServes)
                [Demo.timedOut; Demo.timedOut; Demo.timedOut]
                (Demo.tick (Demo.tick (Demo.tick Demo.secondServes)))
                Demo.probe eq_refl) as Hthm.
  assert (Hdials : @dialEach Demo.runtime (@probeCtx Demo.runtime)
                     (probeConf "dns.nextdns.io") (probeAddr <$> Demo.ips3)
                     (world (Demo.start Demo.secondServes))
                   = ([Demo.timedOut; Demo.timedOut; Demo.timedOut],
                      Demo.tick (Demo.tick (Demo.tick Demo.secondServes))))
    by (vm_compute; reflexivity).
  assert (Hfail : Forall is_Some [Demo.timedOut; Demo.timedOut; Demo.timedOut])
    by (repeat (constructor; [eexists; reflexivity|]); constructor).
  destruct (Hthm Hdials Hfail) as (_ & Hyes & _).
  apply (Hyes ["1.1.1.1"] "2.2.2.2" ["3.3.3.3"]
              [RTResponse (mkResponse 404%Z [Byte.x00; Byte.x01])]
              (Demo.tick (Demo.tick (Demo.tick (Demo.tick Demo.secondServes))))
              (mkResponse 200%Z [Byte.x00; Byte.x01])).
  - reflexivity.
  - vm_compute. reflexivity.
  - constructor; [reflexivity | constructor].
  - vm_compute. reflexivity.
  - reflexivity.
Defined.

Lemma SupportsDoH3_nil_request_witness :
  exists evs,
    @SupportsDoH3 Demo.runtime Demo.badHost Demo.ips3 ["h3"] (Demo.start Demo.secondServes)
    = (None,
       Demo.sys (Demo.tick (Demo.tick (Demo.tick Demo.secondServes)))
                (trace (Demo.start Demo.secondServes) ++ evs))
    /\ dialed evs = probeAddr <$> Demo.ips3
    /\ constructed evs = [@newTransportH3 Demo.runtime (hostOnly Demo.badHost) ["1.1.1.1"]]
    /\ roundTrips evs = [] /\ closed evs = [].
Proof.
  apply (@SupportsDoH3_nil_request Demo.runtime Demo.badHost "1.1.1.1"
           ["2.2.2.2"; "3.3.3.3"] ["h3"] (Demo.start Demo.secondServes)
           [Demo.timedOut; Demo.timedOut; Demo.timedOut]
           (Demo.tick (Demo.tick (Demo.tick Demo.secondServes)))).
  - reflexivity.
  - vm_compute. reflexivity.
  - repeat (constructor; [eexists; reflexivity|]); constructor.
Defined.

Lemma RoundTrip_builds_by_capability_witness :
  let held := set_once heldOnce Demo.nextdns in
  let after := @RoundTrip Demo.runtime Demo.nextdns Demo.query (Demo.start Demo.notFound) in
  let t := {| Demo.h3 := true; Demo.host := "doh3.dns.nextdns.io";
              Demo.addrs := ["45.90.30.0:443"; "45.90.28.0:443"; "2a07:a8c0::1"] |} in
  trace after.2
  = [@EvNewTransportH3 Demo.runtime (set_Hostname "doh3.dns.nextdns.io" held)
                       ["45.90.30.0:443"; "45.90.28.0:443"; "2a07:a8c0::1"];
     @EvRoundTrip Demo.runtime t Demo.query]
  /\ transport after.1.2 = Some t
  /\ Hostname after.1.2 = "doh3.dns.nextdns.io".
Proof.
  destruct (@RoundTrip_builds_by_capability Demo.runtime Demo.nextdns Demo.query
              (Demo.start Demo.notFound) eq_refl eq_refl) as [Hh3 _].
  exact (Hh3 eq_refl).
Defined.

Lemma Exchange_status_error_witness :
  let after := @RoundTrip Demo.runtime Demo.nextdns
                 Demo.posted
                 (Demo.start Demo.notFound) in
  @Exchange Demo.runtime Demo.nextdns 5%Z [Byte.x07] [Byte.xff; Byte.xff]
            (Demo.start Demo.notFound)
  = ((Some (mkExchangeResult 0 (Some (errorString "status: 404"))
              [Byte.xff; Byte.xff]),
      after.1.2),
     Demo.sys (world after.2)
              (trace after.2 ++ [@EvClose Demo.runtime [Byte.x00; Byte.x01]])).
Proof.
  intros after.
  apply (@Exchange_status_error Demo.runtime Demo.nextdns 5%Z [Byte.x07]
           [Byte.xff; Byte.xff] (Demo.start Demo.notFound) Demo.posted
           (mkResponse 404%Z [Byte.x00; Byte.x01]) after.1.2 after.2).
  - reflexivity.
  - vm_compute. reflexivity.
  - simpl. discriminate.
Defined.

Lemma RoundTrip_rewrites_Hostname_witness :
  let e1 := (@RoundTrip Demo.runtime Demo.nextdns Demo.query (Demo.start Demo.notFound)).1.2 in
  Hostname e1 = "doh3.dns.nextdns.io"
  /\ @String_ Demo.runtime Demo.nextdns
     = "https://dns.nextdns.io/abcdef#45.90.28.0,2a07:a8c0::1,45.90.30.0"
  /\ @String_ Demo.runtime e1
     = "https://doh3.dns.nextdns.io/abcdef#45.90.28.0,2a07:a8c0::1,45.90.30.0"
  /\ @Equal Demo.runtime Demo.nextdns (@EpDOH Demo.runtime Demo.nextdns) = true
  /\ @Equal Demo.runtime e1 (@EpDOH Demo.runtime Demo.nextdns) = false.
Proof.
  intros e1.
  destruct (@RoundTrip_rewrites_Hostname Demo.runtime Demo.nextdns Demo.query
              (Demo.start Demo.notFound) [Demo.query; Demo.query]
              eq_refl eq_refl eq_refl eq_refl)
    as (Hh & _ & _ & _ & _ & _ & Heq & Hne & _).
  split; [exact Hh|]. split; [vm_compute; reflexivity|].
  split; [vm_compute; reflexivity|]. split; [exact Heq | exact Hne].
Defined.

Lemma RoundTrip_constructs_once_witness :
  let c := @play Demo.runtime Demo.twoCallers (@enter Demo.runtime Demo.nextdns 2) in
  let t := {| Demo.h3 := true; Demo.host := "doh3.dns.nextdns.io";
              Demo.addrs := ["45.90.30.0:443"; "45.90.28.0:443"; "2a07:a8c0::1"] |} in
  @pool Demo.runtime c = [@Called Demo.runtime t; @Called Demo.runtime t]
  /\ @constructed Demo.runtime (@events Demo.runtime c) = [t]
  /\ length (@constructed Demo.runtime (@events Demo.runtime c)) <= 1
  /\ (forall i j t1 t2,
        @pool Demo.runtime c !! i = Some (@Called Demo.runtime t1) ->
        @pool Demo.runtime c !! j = Some (@Called Demo.runtime t2) -> t1 = t2).
Proof.
  intros c t.
  destruct (@RoundTrip_constructs_once Demo.runtime Demo.nextdns 2 c eq_refl
              (@play_steps Demo.runtime Demo.twoCallers _))
    as (Honce & _ & _ & Hsame & _).
  split; [vm_compute; reflexivity|]. split; [vm_compute; reflexivity|].
  split; [exact Honce | exact Hsame].
Defined.

(** * The further theorems at work on the small network *)

Lemma Equal_same_String_witness :
  @String_ Demo.runtime Demo.nextdns
  = @String_ Demo.runtime (set_transport (Some (Demo.Build_handle false "x" []))
                             (set_once doneOnce Demo.nextdns)).
Proof.
  apply (@Equal_same_String Demo.runtime Demo.nextdns
           (set_transport (Some (Demo.Build_handle false "x" []))
              (set_once doneOnce Demo.nextdns))).
  vm_compute. reflexivity.
Defined.

Lemma endpointAddrs_plain_hosts_witness :
  exists ip, SplitHostPort "45.90.28.0:443" = Some (ip, "443")
             /\ "45.90.28.0:443" = probeAddr ip
             /\ (ip ∈ Bootstrap Demo.plain \/ ip = FastestIP Demo.plain).
Proof.
  apply (endpointAddrs_plain_hosts Demo.plain "45.90.28.0:443").
  - repeat constructor.
  - right. reflexivity.
  - change ("45.90.28.0:443" ∈ ["45.90.30.0:443"; "45.90.28.0:443"]).
    apply elem_of_cons. right. apply elem_of_cons. left. reflexivity.
Defined.

Lemma RoundTrip_preset_transport_witness :
  let t := Demo.Build_handle false "custom" ["10.0.0.1:443"] in
  let e := set_transport (Some t) Demo.nextdns in
  let s := Demo.start Demo.notFound in
  @RoundTrip Demo.runtime e Demo.query s
  = ((Some (@transport_RoundTrip Demo.runtime t Demo.query (world s)).1,
      set_once doneOnce e),
     @mkSys Demo.runtime (@transport_RoundTrip Demo.runtime t Demo.query (world s)).2
            (trace s ++ [@EvRoundTrip Demo.runtime t Demo.query]))
  /\ Hostname (@RoundTrip Demo.runtime e Demo.query s).1.2 = "dns.nextdns.io"
  /\ transport (@RoundTrip Demo.runtime e Demo.query s).1.2 = Some t.
Proof.
  intros t e s.
  exact (@RoundTrip_preset_transport Demo.runtime e Demo.query s t eq_refl eq_refl).
Defined.

Lemma RoundTrip_capability_pinned_witness :
  let first := @RoundTrip Demo.runtime Demo.nextdns Demo.query (Demo.start Demo.notFound) in
  let e2 := set_Bootstrap [] (set_Hostname "elsewhere" first.1.2) in
  exists t,
    roundTrips (trace first.2) = roundTrips (trace (Demo.start Demo.notFound)) ++ [(t, Demo.query)]
    /\ @RoundTrip Demo.runtime e2 Demo.query (Demo.start Demo.answers)
       = ((Some (@transport_RoundTrip Demo.runtime t Demo.query
                   (world (Demo.start Demo.answers))).1, e2),
          @mkSys Demo.runtime
                 (@transport_RoundTrip Demo.runtime t Demo.query
                    (world (Demo.start Demo.answers))).2
                 (trace (Demo.start Demo.answers) ++ [@EvRoundTrip Demo.runtime t Demo.query])).
Proof.
  intros first e2.
  exact (@RoundTrip_capability_pinned Demo.runtime Demo.nextdns Demo.query
           (Demo.start Demo.notFound) e2 Demo.query (Demo.start Demo.answers)
           eq_refl eq_refl eq_refl eq_refl).
Defined.

Lemma RoundTrip_frame_witness :
  @exchangeRequest Demo.runtime Demo.brokenPath 5%Z [Byte.x07] = None
  /\ @Exchange Demo.runtime Demo.brokenPath 5%Z [Byte.x07] [Byte.xff]
               (Demo.start Demo.answers)
     = ((None, Demo.brokenPath), Demo.start Demo.answers)
  /\ (@Exchange Demo.runtime Demo.nextdns 5%Z [Byte.x07] [Byte.xff]
                (Demo.start Demo.answers)).1.2
     = (@RoundTrip Demo.runtime Demo.nextdns Demo.posted (Demo.start Demo.answers)).1.2.
Proof.
  split; [reflexivity|]. split.
  - destruct (@RoundTrip_frame Demo.runtime Demo.brokenPath Demo.query
                (Demo.start Demo.answers))
      as (_ & _ & _ & _ & _ & _ & _ & Hex).
    exact (Hex 5%Z [Byte.x07] [Byte.xff]).
  - destruct (@RoundTrip_frame Demo.runtime Demo.nextdns Demo.query
                (Demo.start Demo.answers))
      as (_ & _ & _ & _ & _ & _ & _ & Hex).
    exact (Hex 5%Z [Byte.x07] [Byte.xff]).
Defined.

Lemma probeDoH3Request_closes_all_witness :
  @probeDoH3Request Demo.runtime 0%Z Demo.badHost Demo.ips3 (Demo.start Demo.secondServes)
  = (None,
     Demo.sys Demo.secondServes
       [@EvNewTransportH3 Demo.runtime (hostOnly Demo.badHost) ["1.1.1.1"]]).
Proof.
  destruct (@probeDoH3Request_closes_all Demo.runtime 0%Z Demo.badHost Demo.ips3
              (Demo.start Demo.secondServes)) as [_ Hnil].
  exact (Hnil eq_refl).
Defined.

Lemma SupportsDoH3_attempts_witness :
  exists r evs w',
    @SupportsDoH3 Demo.runtime Demo.badHost Demo.ips3 [] (Demo.start Demo.secondUp)
    = (r, Demo.sys w' (trace (Demo.start Demo.secondUp) ++ evs))
    /\ r = Some true /\ length (dialed evs) = 2 /\ constructed evs = [].
Proof.
  destruct (@SupportsDoH3_attempts Demo.runtime Demo.badHost Demo.ips3 []
              (Demo.start Demo.secondUp)) as (r & evs & w' & Hrun & _).
  exists r, evs, w'. split; [exact Hrun|].
  vm_compute in Hrun. injection Hrun as <- _ Hevs. subst evs.
  repeat split; reflexivity.
Defined.

Lemma RoundTrip_rewrite_iff_witness :
  let e := set_Hostname "DNS.NextDNS.io" Demo.nextdns in
  let e1 := (@RoundTrip Demo.runtime e Demo.query (Demo.start Demo.notFound)).1.2 in
  (DoH3Supported e = true ->
   (Hostname e1 = "doh3.dns.nextdns.io"
    <-> lowerBytes (Hostname e) = lowerBytes "dns.nextdns.io"
        \/ Hostname e = "doh3.dns.nextdns.io"))
  /\ (DoH3Supported e = false -> Hostname e1 = Hostname e).
Proof.
  intros e e1.
  exact (@RoundTrip_rewrite_iff Demo.runtime e Demo.query (Demo.start Demo.notFound)
           eq_refl eq_refl eq_refl).
Defined.

Lemma goroutines_frame_witness :
  let c := @play Demo.runtime Demo.twoCallers (@enter Demo.runtime Demo.nextdns 2) in
  Path (ep c) = "/abcdef"
  /\ Bootstrap (ep c) = Bootstrap Demo.nextdns /\ ALPN (ep c) = ALPN Demo.nextdns
  /\ DoH3Supported (ep c) = DoH3Supported Demo.nextdns
  /\ FastestIP (ep c) = FastestIP Demo.nextdns
  /\ (Hostname (ep c) = Hostname Demo.nextdns \/ Hostname (ep c) = "doh3.dns.nextdns.io")
  /\ endpointAddrs (ep c) = endpointAddrs Demo.nextdns
  /\ length (pool c) = 2.
Proof.
  intros c.
  exact (@goroutines_frame Demo.runtime Demo.nextdns 2 c
           (@play_steps Demo.runtime Demo.twoCallers _)).
Defined.

Lemma Exchange_transport_error_witness :
  let after := @RoundTrip Demo.runtime Demo.nextdns
                 Demo.posted
                 (Demo.start Demo.secondUp) in
  exists text,
    @Exchange Demo.runtime Demo.nextdns 5%Z [Byte.x07] [Byte.xff; Byte.xff]
              (Demo.start Demo.secondUp)
    = ((Some (mkExchangeResult 0 (Some (errorString text)) [Byte.xff; Byte.xff]),
        after.1.2), after.2)
    /\ String.prefix ("roundtrip: " +:+ errors.Error (errorString "connection refused"))
                     text = true
    /\ (forall cert,
          errors.As_UnknownAuthorityError (errorString "connection refused") = Some cert ->
          text = "roundtrip: " +:+ errors.Error (errorString "connection refused")
                 +:+ " (subject=" +:+ Subject cert +:+ ", issuer=" +:+ Issuer cert +:+ ")")
    /\ (errors.As_UnknownAuthorityError (errorString "connection refused") = None ->
        text = "roundtrip: " +:+ errors.Error (errorString "connection refused")).
Proof.
  intros after.
  apply (@Exchange_transport_error Demo.runtime Demo.nextdns 5%Z [Byte.x07]
           [Byte.xff; Byte.xff] (Demo.start Demo.secondUp) Demo.posted
           (errorString "connection refused") None after.1.2 after.2).
  - reflexivity.
  - vm_compute. reflexivity.
Defined.

Lemma Exchange_closes_body_witness :
  let after := @RoundTrip Demo.runtime Demo.nextdns
                 Demo.posted
                 (Demo.start Demo.answers) in
  let res := mkResponse 200%Z [Byte.x00; Byte.x01] in
  exists evs,
    trace (@Exchange Demo.runtime Demo.nextdns 5%Z [Byte.x07] [Byte.xff]
             (Demo.start Demo.answers)).2 = trace after.2 ++ evs
    /\ closed evs = [Body res]
    /\ last evs = Some (@EvClose Demo.runtime (Body res))
    /\ reads evs = (if (StatusCode res =? 200)%Z then [Body res] else [])
    /\ roundTrips evs = [] /\ constructed evs = [].
Proof.
  intros after res.
  apply (@Exchange_closes_body Demo.runtime Demo.nextdns 5%Z [Byte.x07] [Byte.xff]
           (Demo.start Demo.answers) Demo.posted res after.1.2 after.2).
  - reflexivity.
  - vm_compute. reflexivity.
Defined.

Lemma Exchange_one_round_trip_witness :
  exists r t evs,
    (@Exchange Demo.runtime Demo.nextdns 5%Z [Byte.x07] [Byte.xff]
       (Demo.start Demo.answers)).1.1 = Some r
    /\ trace (@Exchange Demo.runtime Demo.nextdns 5%Z [Byte.x07] [Byte.xff]
                (Demo.start Demo.answers)).2 = trace (Demo.start Demo.answers) ++ evs
    /\ roundTrips evs = [(t, Demo.posted)]
    /\ length (constructed evs) <= 1
    /\ Demo.posted
       = mkRequest "POST" ("https://nowhere" +:+ Path Demo.nextdns)
                   [("Content-Type", ["application/dns-message"])] (Some [Byte.x07]) 5%Z.
Proof.
  apply (@Exchange_one_round_trip Demo.runtime Demo.nextdns 5%Z [Byte.x07] [Byte.xff]
           (Demo.start Demo.answers) Demo.posted).
  - reflexivity.
  - reflexivity.
  - intros Hdone. discriminate Hdone.
Defined.

Lemma Exchange_ok_witness :
  let after := @RoundTrip Demo.runtime Demo.nextdns
                 Demo.posted
                 (Demo.start Demo.answers) in
  @Exchange Demo.runtime Demo.nextdns 5%Z [Byte.x07] [Byte.xff; Byte.xff; Byte.xff]
            (Demo.start Demo.answers)
  = ((Some (mkExchangeResult 2 None [Byte.x00; Byte.x01; Byte.xff]), after.1.2),
     Demo.sys (Demo.tick (world after.2))
              (trace after.2 ++ [@EvRead Demo.runtime [Byte.x00; Byte.x01];
                                 @EvClose Demo.runtime [Byte.x00; Byte.x01]])).
Proof.
  intros after.
  apply (@Exchange_ok Demo.runtime Demo.nextdns 5%Z [Byte.x07]
           [Byte.xff; Byte.xff; Byte.xff] (Demo.start Demo.answers) Demo.posted
           (mkResponse 200%Z [Byte.x00; Byte.x01]) after.1.2 after.2
           [Byte.x00; Byte.x01] (Some EOF) (Demo.tick (world after.2))).
  - reflexivity.
  - vm_compute. reflexivity.
  - reflexivity.
  - vm_compute. reflexivity.
Defined.

Lemma RoundTrip_each_constructs_once_witness :
  exists t evs,
    trace (@RoundTrip_each Demo.runtime Demo.nextdns [Demo.query; Demo.query]
             (Demo.start Demo.notFound)).2 = trace (Demo.start Demo.notFound) ++ evs
    /\ constructed evs = [t]
    /\ roundTrips evs = (fun r => (t, r)) <$> [Demo.query; Demo.query]
    /\ transport (@RoundTrip_each Demo.runtime Demo.nextdns [Demo.query; Demo.query]
                    (Demo.start Demo.notFound)).1.2 = Some t.
Proof.
  exact (@RoundTrip_each_constructs_once Demo.runtime Demo.nextdns Demo.query [Demo.query]
           (Demo.start Demo.notFound) eq_refl eq_refl).
Defined.
